(** * Verification of the SolarEdge-to-VPS telemetry pipeline

    A shallow embedding of the edge agent (register catalog, normalizer,
    poll orchestrator, spool, uploader) and of the ingest service (ingest
    endpoint, idempotent insert, series endpoint), with the properties the
    specification states about them.

    Numeric conventions: Modbus words and Python ints are [Z]; the engineering
    values the Python code computes as floats are modelled as rationals [Q].
    Every value that the statements below depend on (scale 1 registers,
    powers of two, the caps 60 and 300) is exactly representable as a
    double, so the rational model agrees with the float computation there. *)

From Stdlib Require Import ZArith QArith Qminmax Lia Sorted Ascii.
From stdpp Require Import base gmap strings list sorting.

Open Scope Z_scope.

(** Result of a Python computation that may raise. *)
Inductive exn :=
  | AssertionError
  | ValueError
  | OverflowError
  | ValidationError
  | TransportError.

Inductive outcome (A : Type) :=
  | Ret (a : A)
  | Raise (e : exn).
Arguments Ret {A} a.
Arguments Raise {A} e.

(* ------------------------------------------------------------------ *)
(** ** Register catalog (src/edge/src/registers.py) *)

Module Registers.

Inductive reg_type_t := U16 | S16 | U32 | S32 | UTF8.

Definition reg_type_eqb (a b : reg_type_t) : bool :=
  match a, b with
  | U16, U16 | S16, S16 | U32, U32 | S32, S32 | UTF8, UTF8 => true
  | _, _ => false
  end.

Record RegisterDef := mkRegisterDef {
  address : Z;
  name : string;
  reg_type : reg_type_t;
  unit : string;
  scale : Q;
  valid_range : option (Q * Q);
  word_count : Z
}.

(** [_DEFAULT_WORD_COUNTS] and the derivation in [__post_init__]: a
    word_count of 0 is replaced by the default of the type (UTF8 has none
    and raises). *)
Definition default_word_count (t : reg_type_t) : option Z :=
  match t with
  | U16 | S16 => Some 1
  | U32 | S32 => Some 2
  | UTF8 => None
  end.

Definition RegisterDef_new (address : Z) (name : string) (t : reg_type_t)
    (unit : string) (scale : Q) (valid_range : option (Q * Q)) (wc : Z)
    : outcome RegisterDef :=
  if Z.eqb wc 0 then
    match default_word_count t with
    | Some d => Ret (mkRegisterDef address name t unit scale valid_range d)
    | None => Raise ValueError
    end
  else Ret (mkRegisterDef address name t unit scale valid_range wc).

(** The catalog entries below are the [RegisterDef(...)] literals of the
    source with [word_count] already derived as [__post_init__] does. *)
Definition reg (address : Z) (name : string) (t : reg_type_t) (unit : string)
    (scale : Q) (valid_range : option (Q * Q)) (wc : Z) : RegisterDef :=
  mkRegisterDef address name t unit scale valid_range
    (if Z.eqb wc 0 then default (0%Z) (default_word_count t) else wc).

Record RegisterGroup := mkRegisterGroup {
  group_name : string;
  start_address : Z;
  count : Z;
  registers : list RegisterDef
}.

Definition rng (lo hi : Z) : option (Q * Q) := Some (inject_Z lo, inject_Z hi).

Definition DEVICE_GROUP : RegisterGroup := mkRegisterGroup "device" 4990 11 [
  reg 4990 "serial_number" UTF8 "" 1 None 10;
  reg 5000 "device_type_code" U16 "" 1 (rng 0 65535) 0 ].

Definition PV_GROUP : RegisterGroup := mkRegisterGroup "pv" 5004 15 [
  reg 5004 "total_dc_power" U32 "W" 1 (rng 0 20000) 0;
  reg 5011 "daily_pv_generation" U16 "kWh" (1#10) (rng 0 100) 0;
  reg 5012 "mppt1_voltage" U16 "V" (1#10) (rng 0 600) 0;
  reg 5013 "mppt1_current" U16 "A" (1#10) (rng 0 20) 0;
  reg 5014 "mppt2_voltage" U16 "V" (1#10) (rng 0 600) 0;
  reg 5015 "mppt2_current" U16 "A" (1#10) (rng 0 20) 0;
  reg 5017 "total_pv_generation" U32 "kWh" (1#10) (rng 0 1000000) 0 ].

Definition EXPORT_GROUP : RegisterGroup := mkRegisterGroup "export" 5083 2 [
  reg 5083 "export_power" S32 "W" 1 (rng (-20000) 20000) 0 ].

Definition LOAD_GROUP : RegisterGroup := mkRegisterGroup "load" 13008 10 [
  reg 13008 "load_power" S32 "W" 1 (rng (-20000) 50000) 0;
  reg 13010 "grid_power" S16 "W" 1 (rng (-20000) 20000) 0;
  reg 13017 "daily_direct_consumption" U16 "kWh" (1#10) (rng 0 200) 0 ].

Definition BATTERY_GROUP : RegisterGroup := mkRegisterGroup "battery" 13022 6 [
  reg 13022 "battery_power" S16 "W" 1 (rng (-10000) 10000) 0;
  reg 13023 "battery_soc" U16 "%" (1#10) (rng 0 100) 0;
  reg 13024 "battery_temperature" U16 "C" (1#10) (rng (-20) 60) 0;
  reg 13026 "daily_battery_discharge" U16 "kWh" (1#10) (rng 0 100) 0;
  reg 13027 "daily_battery_charge" U16 "kWh" (1#10) (rng 0 100) 0 ].

Definition ALL_GROUPS : list RegisterGroup :=
  [DEVICE_GROUP; PV_GROUP; EXPORT_GROUP; LOAD_GROUP; BATTERY_GROUP].

(** [{reg.name: reg for group in ALL_GROUPS for reg in group.registers}]:
    a dict comprehension, so a later entry overwrites an earlier one. *)
Definition all_register_list : list RegisterDef :=
  concat (map registers ALL_GROUPS).

Definition ALL_REGISTERS : gmap string RegisterDef :=
  foldl (fun m r => <[name r := r]> m) ∅ all_register_list.

End Registers.

(* ------------------------------------------------------------------ *)
(** ** Normalizer (src/edge/src/normalizer.py) *)

Module Normalizer.
Import Registers.

(** The poller's output: register name to its list of raw 16-bit words. *)
Abbreviation RawMap := (gmap string (list Z)).

Definition _convert_u16 (raw : Z) : Z := Z.land raw 65535.

Definition _convert_s16 (raw : Z) : Z :=
  let val := Z.land raw 65535 in
  if 32768 <=? val then val - 65536 else val.

Definition _convert_u32 (hi lo : Z) : Z :=
  Z.lor (Z.shiftl (Z.land hi 65535) 16) (Z.land lo 65535).

Definition _convert_s32 (hi lo : Z) : Z :=
  let val := Z.lor (Z.shiftl (Z.land hi 65535) 16) (Z.land lo 65535) in
  if 2147483648 <=? val then val - 4294967296 else val.

(** [lo <= x <= hi] *)
Definition in_range (lo hi x : Q) : bool := Qle_bool lo x && Qle_bool x hi.

(** [_extract_value(reg_def, raw)] *)
Definition _extract_value (reg_def : RegisterDef) (raw : RawMap) : option Q :=
  match raw !! name reg_def with
  | None => None
  | Some words =>
      let raw_int :=
        match reg_type reg_def with
        | U32 | S32 =>
            match words with
            | hi_val :: lo_val :: _ =>
                Some (if reg_type_eqb (reg_type reg_def) U32
                      then _convert_u32 hi_val lo_val
                      else _convert_s32 hi_val lo_val)
            | _ => None
            end
        | U16 | S16 =>
            match words with
            | raw_val :: _ =>
                Some (if reg_type_eqb (reg_type reg_def) U16
                      then _convert_u16 raw_val
                      else _convert_s16 raw_val)
            | [] => None
            end
        | UTF8 => None
        end in
      match raw_int with
      | None => None
      | Some ri =>
          let scaled := (inject_Z ri * scale reg_def)%Q in
          match valid_range reg_def with
          | None => Some scaled
          | Some (lo, hi) =>
              if in_range lo hi scaled then Some scaled
              else
                let fallback :=
                  match words with
                  | w0 :: w1 :: _ =>
                      if reg_type_eqb (reg_type reg_def) S32
                         && ((w0 =? 0) || (w0 =? 65535))
                      then
                        let alt_scaled := (inject_Z (_convert_s16 w1) * scale reg_def)%Q in
                        if in_range lo hi alt_scaled then Some alt_scaled else None
                      else None
                  | _ => None
                  end in
                fallback
          end
      end
  end.

(** [_FIELD_MAP], in its insertion order. *)
Definition _FIELD_MAP : list (string * string) := [
  ("pv_power_w", "total_dc_power");
  ("pv_daily_kwh", "daily_pv_generation");
  ("battery_power_w", "battery_power");
  ("battery_soc_pct", "battery_soc");
  ("battery_temp_c", "battery_temperature");
  ("load_power_w", "load_power");
  ("export_power_w", "export_power") ].

(** The edge [SungrowSample] model (src/sungrow_edge/edge/src/models.py):
    every engineering field is a required float. *)
Record SungrowSample := mkSungrowSample {
  device_id : string;
  ts : Z;
  pv_power_w : Q;
  pv_daily_kwh : Q;
  battery_power_w : Q;
  battery_soc_pct : Q;
  battery_temp_c : Q;
  load_power_w : Q;
  export_power_w : Q
}.

(** [SungrowSample(device_id=..., ts=..., **fields)]: pydantic raises a
    ValidationError when a required field is missing. *)
Definition SungrowSample_new (device_id : string) (ts : Z) (fields : gmap string Q)
    : outcome SungrowSample :=
  match fields !! "pv_power_w", fields !! "pv_daily_kwh",
        fields !! "battery_power_w", fields !! "battery_soc_pct",
        fields !! "battery_temp_c", fields !! "load_power_w",
        fields !! "export_power_w" with
  | Some a, Some b, Some c, Some d, Some e, Some f, Some g =>
      Ret (mkSungrowSample device_id ts a b c d e f g)
  | _, _, _, _, _, _, _ => Raise ValidationError
  end.

(** The [for field_name, reg_name in _FIELD_MAP.items()] loop of
    [normalize]: [None] is an early [return None]. *)
Fixpoint normalize_fields (raw : RawMap) (fm : list (string * string))
    (fields : gmap string Q) : option (gmap string Q) :=
  match fm with
  | [] => Some fields
  | (field_name, reg_name) :: fm' =>
      match ALL_REGISTERS !! reg_name with
      | None => None
      | Some reg_def =>
          let grid_fallback :=
            if String.eqb field_name "export_power_w"
               && negb (bool_decide (is_Some (raw !! reg_name)))
            then
              match ALL_REGISTERS !! "grid_power" with
              | Some grid_reg =>
                  match _extract_value grid_reg raw with
                  | Some grid_value => Some (- grid_value)%Q
                  | None => None
                  end
              | None => None
              end
            else None in
          match grid_fallback with
          | Some v => normalize_fields raw fm' (<[field_name := v]> fields)
          | None =>
              match _extract_value reg_def raw with
              | None => None
              | Some value => normalize_fields raw fm' (<[field_name := value]> fields)
              end
          end
      end
  end.

(** [normalize(raw, device_id=..., ts=...)] *)
Definition normalize (raw : RawMap) (device_id : string) (ts : Z)
    : outcome (option SungrowSample) :=
  match normalize_fields raw _FIELD_MAP ∅ with
  | None => Ret None
  | Some fields =>
      match SungrowSample_new device_id ts fields with
      | Ret s => Ret (Some s)
      | Raise e => Raise e
      end
  end.

(** [_extract_value(ALL_REGISTERS[reg_name], raw)], [None] when the name
    is not in the catalog. *)
Definition extract_named (reg_name : string) (raw : RawMap) : option Q :=
  match ALL_REGISTERS !! reg_name with
  | Some reg_def => _extract_value reg_def raw
  | None => None
  end.

(** The value one iteration of the [normalize] loop stores for
    [field_name], [None] when it returns early. *)
Definition field_value (raw : RawMap) (field_name reg_name : string) : option Q :=
  match ALL_REGISTERS !! reg_name with
  | None => None
  | Some reg_def =>
      if String.eqb field_name "export_power_w"
         && negb (bool_decide (is_Some (raw !! reg_name)))
      then
        match extract_named "grid_power" raw with
        | Some grid_value => Some (- grid_value)%Q
        | None => _extract_value reg_def raw
        end
      else _extract_value reg_def raw
  end.

End Normalizer.

(* ------------------------------------------------------------------ *)
(** ** Poll orchestrator (src/edge/src/poller.py) *)

Module Poller.
Import Registers.

(** Outcome of [client.read_input_registers(...)] for one group: a normal
    response with its words, an error response ([isError()] is true; any
    Modbus exception code), or a transport exception raised by the call. *)
Inductive read_response :=
  | RespOk (regs : list Z)
  | RespError (exception_code : Z)
  | RespRaises.

(** Outcome of [await client.connect()]. *)
Inductive connect_result := ConnOk | ConnFalse | ConnRaises.

(** Observable effects of one cycle, in order. *)
Inductive action :=
  | SleepMs (ms : Z)
  | ReadGroup (g : RegisterGroup).

(** [_extract_register_values(group, raw_words, out)]:
    [out[reg.name] = raw_words[offset : offset + reg.word_count]]. *)
Definition _extract_register_values (group : RegisterGroup) (raw_words : list Z)
    (out : gmap string (list Z)) : gmap string (list Z) :=
  foldl (fun m r =>
           let offset := Z.to_nat (address r - start_address group) in
           <[name r := take (Z.to_nat (word_count r)) (drop offset raw_words)]> m)
        out (registers group).

(** The [for idx, group in enumerate(groups)] loop of [_do_poll]. *)
Fixpoint poll_groups (read : RegisterGroup -> read_response)
    (inter_register_delay_ms : Z) (idx : nat) (groups : list RegisterGroup)
    (result : gmap string (list Z))
    : list action * outcome (option (gmap string (list Z))) :=
  match groups with
  | [] => ([], Ret (Some result))
  | group :: rest =>
      let pre := if (0 <? idx)%nat && (0 <? inter_register_delay_ms)
                 then [SleepMs inter_register_delay_ms] else [] in
      match read group with
      | RespRaises => (pre ++ [ReadGroup group], Raise TransportError)
      | RespError _ =>
          if String.eqb (group_name group) "export" then
            let '(t, r) := poll_groups read inter_register_delay_ms (S idx) rest result in
            (pre ++ ReadGroup group :: t, r)
          else (pre ++ [ReadGroup group], Ret None)
      | RespOk regs =>
          let '(t, r) := poll_groups read inter_register_delay_ms (S idx) rest
                           (_extract_register_values group regs result) in
          (pre ++ ReadGroup group :: t, r)
      end
  end.

(** [_do_poll(client, ...)] over a list of groups; the source reads the
    module constant [ALL_GROUPS]. *)
Definition do_poll_groups (groups : list RegisterGroup) (conn : connect_result)
    (read : RegisterGroup -> read_response) (inter_register_delay_ms : Z)
    : list action * outcome (option (gmap string (list Z))) :=
  match conn with
  | ConnRaises => ([], Ret None)
  | ConnFalse => ([], Ret None)
  | ConnOk => poll_groups read inter_register_delay_ms 0 groups ∅
  end.

Definition _do_poll := do_poll_groups ALL_GROUPS.

(** The [try: ... except Exception: return None] around [_do_poll] in
    [poll_registers] and in [Poller.poll]. *)
Definition catch_all {A} (o : outcome (option A)) : option A :=
  match o with Ret r => r | Raise _ => None end.

Definition poll_registers (conn : connect_result)
    (read : RegisterGroup -> read_response) (inter_register_delay_ms : Z)
    : list action * option (gmap string (list Z)) :=
  let '(t, o) := _do_poll conn read inter_register_delay_ms in (t, catch_all o).

End Poller.

(** [Poller.poll]: the backoff sleep before the attempt and the update of
    [_consecutive_failures] after it.  [result] is what the guarded
    [_do_poll] call produced (see [Poller.poll_registers]). *)
Module PollerBackoff.

Definition BASE_BACKOFF_S : Q := 1.
Definition MAX_BACKOFF_S : Q := 60.

(** [BASE_BACKOFF_S * (2 ** (n - 1))]: the int power of two is converted to
    a double, which is exact below 2^1024 and raises OverflowError from
    2^1024 on. *)
Definition backoff_delay (consecutive_failures : Z) : outcome Q :=
  let p := 2 ^ (consecutive_failures - 1) in
  if p <? 2 ^ 1024 then Ret (Qmin (BASE_BACKOFF_S * inject_Z p) MAX_BACKOFF_S)
  else Raise OverflowError.

(** Returns the sleep performed before the attempt (if any), the poll
    result and the new failure counter. *)
Definition poll {A} (consecutive_failures : Z) (result : option A)
    : outcome (option Q * option A * Z) :=
  let next := match result with
              | Some _ => 0
              | None => consecutive_failures + 1
              end in
  if 0 <? consecutive_failures then
    match backoff_delay consecutive_failures with
    | Ret delay => Ret (Some delay, result, next)
    | Raise e => Raise e
    end
  else Ret (None, result, next).

End PollerBackoff.

(* ------------------------------------------------------------------ *)
(** ** Durable spool (src/edge/src/spool.py) *)

Module Spool.

(** The SQLite file: the [spool] table, kept in rowid order, and the
    [sqlite_sequence] entry that [INTEGER PRIMARY KEY AUTOINCREMENT]
    maintains (largest rowid ever used; 0 before the first insert). *)
Record SpoolFile := mkSpoolFile {
  rows : list (Z * string);
  sqlite_seq : Z
}.

(** A [Spool] object on a file: [_db] is either a connection or [None]. *)
Record Spool := mkSpool {
  file : SpoolFile;
  opened : bool
}.

Definition empty_file : SpoolFile := mkSpoolFile [] 0.

Definition MAX_ROWID : Z := 9223372036854775807.

Definition max_rowid (rs : list (Z * string)) : Z :=
  foldl (fun m r => Z.max m (fst r)) 0 rs.

(** SQLite's AUTOINCREMENT rule: the new rowid is one more than the larger
    of the recorded sequence and the largest rowid present; at the largest
    representable rowid the insert fails with SQLITE_FULL. *)
Definition autoincrement_next (f : SpoolFile) : option Z :=
  let m := Z.max (sqlite_seq f) (max_rowid (rows f)) in
  if m <? MAX_ROWID then Some (m + 1) else None.

(** [open()]: [CREATE TABLE IF NOT EXISTS] leaves an existing table as is. *)
Definition open_ (s : Spool) : Spool := mkSpool (file s) true.

Definition close (s : Spool) : Spool := mkSpool (file s) false.

(** [enqueue(payload)]: returns the new state and the rowid assigned. *)
Definition enqueue (s : Spool) (payload : string) : outcome (Spool * Z) :=
  if negb (opened s) then Raise AssertionError
  else match autoincrement_next (file s) with
       | None => Raise TransportError
       | Some rid =>
           Ret (mkSpool (mkSpoolFile (rows (file s) ++ [(rid, payload)]) rid) true, rid)
       end.

(** [peek(n)]: [ORDER BY rowid ASC LIMIT n], nothing when [n < 1]. *)
Definition peek (s : Spool) (n : Z) : outcome (list (Z * string)) :=
  if negb (opened s) then Raise AssertionError
  else if n <? 1 then Ret []
  else Ret (take (Z.to_nat n) (rows (file s))).

(** [ack(rowids)]: [DELETE FROM spool WHERE rowid IN (...)]. *)
Definition ack (s : Spool) (rowids : list Z) : outcome Spool :=
  if negb (opened s) then Raise AssertionError
  else match rowids with
       | [] => Ret s
       | _ => Ret (mkSpool (mkSpoolFile
                     (filter (fun r => fst r ∉ rowids) (rows (file s)))
                     (sqlite_seq (file s))) true)
       end.

Definition count (s : Spool) : outcome Z :=
  if negb (opened s) then Raise AssertionError
  else Ret (Z.of_nat (length (rows (file s)))).

(** Operations a client performs on one backing file; [OpClose] followed by
    [OpOpen] is a process restart on the same file. *)
Inductive op :=
  | OpEnqueue (payload : string)
  | OpPeek (n : Z)
  | OpAck (rowids : list Z)
  | OpCount
  | OpClose
  | OpOpen.

(** Runs the operations; a call that raises is caught by the caller and
    leaves the state as it was.  Returns the final state and the rowids
    assigned by the successful enqueues, in order. *)
Fixpoint run (s : Spool) (ops : list op) : Spool * list Z :=
  match ops with
  | [] => (s, [])
  | o :: rest =>
      match o with
      | OpEnqueue p =>
          match enqueue s p with
          | Ret (s', rid) => let '(s'', a) := run s' rest in (s'', rid :: a)
          | Raise _ => run s rest
          end
      | OpAck l =>
          match ack s l with
          | Ret s' => run s' rest
          | Raise _ => run s rest
          end
      | OpPeek _ | OpCount => run s rest
      | OpClose => run (close s) rest
      | OpOpen => run (open_ s) rest
      end
  end.

Definition fresh : Spool := mkSpool empty_file false.

Definition rowids_of (s : Spool) : list Z := map fst (rows (file s)).

End Spool.

(* ------------------------------------------------------------------ *)
(** ** Batch uploader (src/sungrow_edge/edge/src/uploader.py) *)

Module Uploader.

Definition _INITIAL_BACKOFF_S : Q := 1.
Definition _DEFAULT_MAX_BACKOFF_S : Q := 300.

Record Uploader := mkUploader {
  vps_base_url : string;
  vps_device_token : string;
  batch_size : Z;
  max_backoff_s : Q;
  current_backoff : Q
}.

(** What [client.post(...)] does: a response with a status code, one of
    the two caught exceptions, or another httpx exception (not caught). *)
Inductive post_result :=
  | HttpResponse (status_code : Z)
  | ConnectError
  | TimeoutException
  | OtherHttpError.

Section UploadBatch.

(** Decoded JSON values, and [json.loads] ([None]: it raises). *)
Context {json : Type}.
Context (json_loads : string -> option json).

(** Calls made on the spool and the network, in order. *)
Inductive call :=
  | CallPeek (n : Z)
  | CallPost (url : string) (authorization : string) (samples : list json)
  | CallAck (rowids : list Z).

Definition _increase_backoff (u : Uploader) : Uploader :=
  mkUploader (vps_base_url u) (vps_device_token u) (batch_size u) (max_backoff_s u)
    (Qmin (current_backoff u * 2) (max_backoff_s u)).

Definition _reset_backoff (u : Uploader) : Uploader :=
  mkUploader (vps_base_url u) (vps_device_token u) (batch_size u) (max_backoff_s u)
    _INITIAL_BACKOFF_S.

Fixpoint loads_all (payloads : list string) : option (list json) :=
  match payloads with
  | [] => Some []
  | p :: ps =>
      match json_loads p, loads_all ps with
      | Some j, Some js => Some (j :: js)
      | _, _ => None
      end
  end.

(** [upload_batch(spool)]: the calls made, the returned value (or the
    exception raised), and the spool and uploader states afterwards. *)
Definition upload_batch (u : Uploader) (spool : Spool.Spool)
    (post : string -> string -> list json -> post_result)
    : list call * outcome bool * Spool.Spool * Uploader :=
  let c_peek := CallPeek (batch_size u) in
  match Spool.peek spool (batch_size u) with
  | Raise e => ([c_peek], Raise e, spool, u)
  | Ret [] => ([c_peek], Ret false, spool, u)
  | Ret rows =>
      let rowids := map fst rows in
      match loads_all (map snd rows) with
      | None => ([c_peek], Raise ValueError, spool, u)
      | Some samples =>
          let url := (vps_base_url u ++ "/v1/ingest")%string in
          let auth := ("Bearer " ++ vps_device_token u)%string in
          let c_post := CallPost url auth samples in
          match post url auth samples with
          | ConnectError | TimeoutException =>
              ([c_peek; c_post], Ret false, spool, _increase_backoff u)
          | OtherHttpError => ([c_peek; c_post], Raise TransportError, spool, u)
          | HttpResponse status_code =>
              if status_code =? 200 then
                match Spool.ack spool rowids with
                | Ret spool' =>
                    ([c_peek; c_post; CallAck rowids], Ret true, spool', _reset_backoff u)
                | Raise e => ([c_peek; c_post; CallAck rowids], Raise e, spool, u)
                end
              else ([c_peek; c_post], Ret false, spool, _increase_backoff u)
          end
      end
  end.

End UploadBatch.

End Uploader.

(* ------------------------------------------------------------------ *)
(** ** Ingest service (src/vps/src/services/ingestion.py,
       src/vps/src/api/ingest.py) *)

Module Ingest.

(** [SampleIn] as validated by pydantic; [ts] is the instant (timestamptz
    compares instants). *)
Record SampleIn := mkSampleIn {
  device_id : string;
  ts : Z;
  pv_power_w : Q;
  pv_daily_kwh : option Q;
  battery_power_w : Q;
  battery_soc_pct : Q;
  battery_temp_c : option Q;
  load_power_w : Q;
  export_power_w : Q;
  sample_count : Z
}.

(** The composite primary key [(device_id, ts)] of [sungrow_samples]. *)
Definition sample_key (s : SampleIn) : string * Z := (device_id s, ts s).

Abbreviation Store := (gmap (string * Z) SampleIn).

(** The realtime cache: key to cached JSON text. *)
Abbreviation Cache := (gmap string string).

(** [INSERT ... VALUES (rows) ON CONFLICT (device_id, ts) DO NOTHING]:
    PostgreSQL inserts the rows in order and skips a row whose key is
    already present, including a key inserted earlier by the same
    statement; [rowcount] is the number of rows inserted. *)
Fixpoint insert_on_conflict_do_nothing (st : Store) (rows : list SampleIn) : Store * Z :=
  match rows with
  | [] => (st, 0)
  | r :: rest =>
      match st !! sample_key r with
      | Some _ => insert_on_conflict_do_nothing st rest
      | None =>
          let '(st', n) := insert_on_conflict_do_nothing (<[sample_key r := r]> st) rest in
          (st', n + 1)
      end
  end.

(** [invalidate_device_cache(device_id)]: [DEL realtime:{device_id}]. *)
Definition invalidate_device_cache (c : Cache) (device_id : string) : Cache :=
  delete ("realtime:" ++ device_id)%string c.

(** [ingest_samples(db, device_id, samples)] *)
Definition ingest_samples (st : Store) (c : Cache) (device_id : string)
    (samples : list SampleIn) : Store * Cache * Z :=
  match samples with
  | [] => (st, c, 0)
  | _ =>
      let '(st', inserted) := insert_on_conflict_do_nothing st samples in
      let c' := if 0 <? inserted then invalidate_device_cache c device_id else c in
      (st', c', inserted)
  end.

(** The parts of the HTTP request the handler reads. *)
Record Request := mkRequest {
  (** [Content-Length]: absent, non-numeric, or a number. *)
  content_length : option (option Z);
  body_length : Z;
  (** [IngestPayload.model_validate_json(body)]; [None] is a
      ValidationError. *)
  payload : option (list SampleIn)
}.

Record Config := mkConfig {
  MAX_REQUEST_BYTES : Z;
  MAX_SAMPLES_PER_REQUEST : Z
}.

Inductive Response :=
  | Inserted (inserted : Z)      (** 200 [{"inserted": n}] *)
  | HttpError (status_code : Z).

(** [ingest(request, device_id, db)]; [auth] is the result of the
    [BearerAuth.verify] dependency ([None]: 401). *)
Definition ingest (cfg : Config) (auth : option string) (req : Request)
    (st : Store) (c : Cache) : Response * Store * Cache :=
  match auth with
  | None => (HttpError 401, st, c)
  | Some device_id =>
      let max_request_bytes := MAX_REQUEST_BYTES cfg in
      let pre :=
        match content_length req with
        | None => None
        | Some None => Some 400
        | Some (Some n) => if max_request_bytes <? n then Some 413 else None
        end in
      match pre with
      | Some code => (HttpError code, st, c)
      | None =>
          if max_request_bytes <? body_length req then (HttpError 413, st, c)
          else
            match payload req with
            | None => (HttpError 422, st, c)
            | Some [] => (Inserted 0, st, c)
            | Some samples =>
                if MAX_SAMPLES_PER_REQUEST cfg <? Z.of_nat (length samples)
                then (HttpError 413, st, c)
                else if existsb (fun s => negb (String.eqb (Ingest.device_id s) device_id)) samples
                then (HttpError 403, st, c)
                else
                  let '(st', c', inserted) := ingest_samples st c device_id samples in
                  (Inserted inserted, st', c')
            end
      end
  end.

End Ingest.

(* ------------------------------------------------------------------ *)
(** ** Series endpoint (src/vps/src/api/series.py) *)

Module Series.

(** The keys of [FRAME_CONFIG] (src/vps/src/services/aggregation.py). *)
Definition VALID_FRAMES : list string := ["day"; "month"; "year"; "all"].

Inductive Response :=
  | SeriesResponse (device_id : string) (frame : string) (series : list Z)
  | HttpError (status_code : Z).

(** [get_series(...)]; [auth] is the result of the auth dependency and
    [query_series] stands for the aggregation query. *)
Definition get_series (query_series : string -> string -> list Z)
    (auth : option string) (device_id frame : string) : Response :=
  match auth with
  | None => HttpError 401
  | Some auth_device_id =>
      if negb (bool_decide (frame ∈ VALID_FRAMES)) then HttpError 422
      else if negb (String.eqb device_id auth_device_id) then HttpError 403
      else SeriesResponse device_id frame (query_series device_id frame)
  end.

End Series.

(* ------------------------------------------------------------------ *)
(** ** Bearer tokens (src/vps/src/auth/bearer.py) *)

Module Bearer.

(** A Rocq [ascii] stands for a code point below 256.  [str.isspace] on
    those: tab to carriage return, the four separators 0x1c-0x1f, space,
    NEL (0x85) and NO-BREAK SPACE (0xa0). *)
Definition is_space (c : ascii) : bool :=
  let n := nat_of_ascii c in
  ((9 <=? n) && (n <=? 13))%nat || ((28 <=? n) && (n <=? 32))%nat ||
  (n =? 133)%nat || (n =? 160)%nat.

Fixpoint lstrip (s : string) : string :=
  match s with
  | EmptyString => EmptyString
  | String c r => if is_space c then lstrip r else s
  end.

Fixpoint rev_str (s : string) : string :=
  match s with
  | EmptyString => EmptyString
  | String c r => (rev_str r ++ String c EmptyString)%string
  end.

(** [str.strip()] *)
Definition strip (s : string) : string := rev_str (lstrip (rev_str (lstrip s))).

(** [s.split(sep)] for a one-character separator: always at least one
    piece, empty pieces kept. *)
Fixpoint split_on (sep : ascii) (s : string) : list string :=
  match s with
  | EmptyString => [EmptyString]
  | String c r =>
      if Ascii.eqb c sep then EmptyString :: split_on sep r
      else match split_on sep r with
           | [] => [String c EmptyString]
           | w :: ws => String c w :: ws
           end
  end.

(** [sep in s] followed by [s.split(sep, maxsplit=1)]: [None] when the
    separator does not occur, else the text before and after the first
    occurrence. *)
Fixpoint split_first (sep : ascii) (s : string) : option (string * string) :=
  match s with
  | EmptyString => None
  | String c r =>
      if Ascii.eqb c sep then Some (EmptyString, r)
      else match split_first sep r with
           | None => None
           | Some (a, b) => Some (String c a, b)
           end
  end.

(** A Python dict with its insertion order: [d[k] = v] updates an existing
    key in place and appends a new one. *)
Abbreviation dict := (list (string * string)).

Fixpoint dict_set (k v : string) (d : dict) : dict :=
  match d with
  | [] => [(k, v)]
  | (k', v') :: d' => if String.eqb k k' then (k, v) :: d' else (k', v') :: dict_set k v d'
  end.

Definition parse_entry (token_map : dict) (entry : string) : dict :=
  let entry := strip entry in
  match split_first ":" entry with
  | None => token_map
  | Some (token, device_id) =>
      let token := strip token in
      let device_id := strip device_id in
      if negb (String.eqb token "") && negb (String.eqb device_id "")
      then dict_set token device_id token_map
      else token_map
  end.

(** [parse_device_tokens(raw)] *)
Definition parse_device_tokens (raw : string) : dict :=
  if String.eqb raw "" || String.eqb (strip raw) "" then []
  else foldl parse_entry [] (split_on "," raw).

(** [verify_bearer_token(token, token_map)]: [compare_digest] of the UTF-8
    encodings is string equality. *)
Definition verify_bearer_token (token : string) (token_map : dict) : option string :=
  if String.eqb token "" then None
  else (fix go (m : dict) : option string :=
          match m with
          | [] => None
          | (registered_token, device_id) :: m' =>
              if String.eqb token registered_token then Some device_id else go m'
          end) token_map.

(** [BearerAuth.verify]: [credentials] is what [HTTPBearer] extracted from
    the Authorization header ([None]: missing); [None] is the 401. *)
Definition verify (token_map : dict) (credentials : option string) : option string :=
  match credentials with
  | None => None
  | Some c => verify_bearer_token c token_map
  end.

End Bearer.

(* ------------------------------------------------------------------ *)
(** ** Realtime endpoint (src/vps/src/api/realtime.py) *)

Module Realtime.
Import Ingest.

(** [SELECT ... WHERE device_id = :d ORDER BY ts DESC LIMIT 1] over the
    rows of the table. *)
Definition latest_sample (st : Store) (device_id : string) : option SampleIn :=
  foldr (fun s acc =>
           if String.eqb (Ingest.device_id s) device_id then
             match acc with
             | None => Some s
             | Some b => if ts b <? ts s then Some s else Some b
             end
           else acc)
        None (map snd (map_to_list st)).

Section Route.

Context {json : Type}.
(** [json.loads] of a cached text ([None]: it raises) and
    [json.dumps(_sample_to_dict(sample))]. *)
Context (json_loads : string -> option json) (dumps : SampleIn -> string).

Inductive Response :=
  | FromCache (body : json)          (** [json.loads(cached)] *)
  | FromDb (sample : SampleIn)       (** [_sample_to_dict(sample)] *)
  | HttpError (status_code : Z).

(** [realtime(request, device_id, auth_device_id, db)]: [auth] is the
    result of the auth dependency ([None]: 401), [redis] the Redis store
    ([None]: unreachable, every call raises and is caught), [cache_ttl] the
    parsed [CACHE_TTL_S].  Redis refuses a [SET] whose expiry is not
    positive; the error is caught and nothing is cached. *)
Definition realtime (cache_ttl : Z) (auth : option string) (device_id : string)
    (st : Store) (redis : option Cache) : Response * option Cache :=
  match auth with
  | None => (HttpError 401, redis)
  | Some auth_device_id =>
      if negb (String.eqb device_id auth_device_id) then (HttpError 403, redis)
      else
        let cache_key := ("realtime:" ++ device_id)%string in
        let hit := match redis with
                   | Some c => match c !! cache_key with
                               | Some cached => json_loads cached
                               | None => None
                               end
                   | None => None
                   end in
        match hit with
        | Some body => (FromCache body, redis)
        | None =>
            match latest_sample st device_id with
            | None => (HttpError 404, redis)
            | Some sample =>
                let redis' :=
                  match redis with
                  | Some c => if 0 <? cache_ttl then Some (<[cache_key := dumps sample]> c) else Some c
                  | None => None
                  end in
                (FromDb sample, redis')
            end
        end
  end.

End Route.

End Realtime.


(* ================================================================== *)
(** * Properties *)

(* ------------------------------------------------------------------ *)
(** ** Series endpoint: order of the request checks *)

(** Claim C2 as the spec words it: the device check comes first, so a
    mismatching device_id is answered 403 whatever the frame. *)
Definition series_device_check_first (q : string -> string -> list Z) : Prop :=
  forall auth_dev dev frame, dev <> auth_dev ->
    Series.get_series q (Some auth_dev) dev frame = Series.HttpError 403.

(** C2 (counterexample): with an authenticated [dev-1] asking for
    [dev-2] with the invalid frame [week], [get_series] answers 422, not
    403: the frame is validated before the device match. *)
Lemma series_mismatch_with_bad_frame_is_422 :
  Series.get_series (fun _ _ => []) (Some "dev-1") "dev-2" "week" = Series.HttpError 422 /\
  ~ series_device_check_first (fun _ _ => []).
Proof.
  split; [reflexivity |].
  intros H. specialize (H "dev-1" "dev-2" "week" ltac:(discriminate)).
  vm_compute in H. discriminate H.
Qed.

(** C2 (amended): for an authenticated request, a frame outside
    {day, month, year, all} is answered 422 whatever the device_id; for a
    valid frame, a device_id different from the authenticated one is
    answered 403; a valid frame for the own device reaches the query. *)
Theorem series_frame_checked_before_device :
  forall (q : string -> string -> list Z) (auth_dev dev frame : string),
    (frame ∉ Series.VALID_FRAMES ->
       Series.get_series q (Some auth_dev) dev frame = Series.HttpError 422) /\
    (frame ∈ Series.VALID_FRAMES -> dev <> auth_dev ->
       Series.get_series q (Some auth_dev) dev frame = Series.HttpError 403) /\
    (frame ∈ Series.VALID_FRAMES -> dev = auth_dev ->
       Series.get_series q (Some auth_dev) dev frame =
         Series.SeriesResponse dev frame (q dev frame)).
Proof.
  intros q auth_dev dev frame. unfold Series.get_series.
  split; [| split]; intros Hf.
  - rewrite bool_decide_false by exact Hf. reflexivity.
  - intros Hd. rewrite bool_decide_true by exact Hf. simpl.
    destruct (String.eqb_spec dev auth_dev); [contradiction | reflexivity].
  - intros Hd. rewrite bool_decide_true by exact Hf. simpl.
    subst. rewrite String.eqb_refl. reflexivity.
Qed.

Lemma series_frame_checked_before_device_witness :
  Series.get_series (fun _ _ => [1]) (Some "dev-1") "dev-2" "week" = Series.HttpError 422 /\
  Series.get_series (fun _ _ => [1]) (Some "dev-1") "dev-2" "day" = Series.HttpError 403 /\
  Series.get_series (fun _ _ => [1]) (Some "dev-1") "dev-1" "day" =
    Series.SeriesResponse "dev-1" "day" [1].
Proof.
  split; [| split].
  - apply (series_frame_checked_before_device (fun _ _ => [1]) "dev-1" "dev-2" "week").
    vm_compute. intros H. repeat (inversion H; subst; clear H; rename select (_ ∈ _) into H).
  - apply (series_frame_checked_before_device (fun _ _ => [1]) "dev-1" "dev-2" "day");
      [left | discriminate].
  - apply (series_frame_checked_before_device (fun _ _ => [1]) "dev-1" "dev-1" "day");
      [left | reflexivity].
Defined.

(* ------------------------------------------------------------------ *)
(** ** Ingest endpoint: empty batch and batch-size cap *)

(** The request passes the authentication and size checks and its body
    parses to [samples]. *)
Definition well_formed_request (cfg : Ingest.Config) (req : Ingest.Request)
    (samples : list Ingest.SampleIn) : Prop :=
  (Ingest.content_length req = None \/
   exists n, Ingest.content_length req = Some (Some n) /\ n <= Ingest.MAX_REQUEST_BYTES cfg) /\
  Ingest.body_length req <= Ingest.MAX_REQUEST_BYTES cfg /\
  Ingest.payload req = Some samples.

Lemma ingest_reaches_payload :
  forall cfg dev req st c samples, well_formed_request cfg req samples ->
    Ingest.ingest cfg (Some dev) req st c =
      match samples with
      | [] => (Ingest.Inserted 0, st, c)
      | _ =>
          if Ingest.MAX_SAMPLES_PER_REQUEST cfg <? Z.of_nat (length samples)
          then (Ingest.HttpError 413, st, c)
          else if existsb (fun s => negb (String.eqb (Ingest.device_id s) dev)) samples
          then (Ingest.HttpError 403, st, c)
          else
            let '(st', c', inserted) := Ingest.ingest_samples st c dev samples in
            (Ingest.Inserted inserted, st', c')
      end.
Proof.
  intros cfg dev req st c samples (Hcl & Hbody & Hp).
  unfold Ingest.ingest.
  assert (Hpre : match Ingest.content_length req with
                 | None => None
                 | Some None => Some 400
                 | Some (Some n) => if Ingest.MAX_REQUEST_BYTES cfg <? n then Some 413 else None
                 end = None).
  { destruct Hcl as [-> | (n & -> & Hn)]; [reflexivity |].
    destruct (Z.ltb_spec (Ingest.MAX_REQUEST_BYTES cfg) n); [lia | reflexivity]. }
  rewrite Hpre.
  destruct (Z.ltb_spec (Ingest.MAX_REQUEST_BYTES cfg) (Ingest.body_length req)); [lia |].
  rewrite Hp. destruct samples; reflexivity.
Qed.

(** C8: for an authenticated, well-formed, size-valid POST /v1/ingest,
    an empty samples list gives 200 [{inserted: 0}] with store and cache
    unchanged, whatever the configured batch cap (the empty check comes
    first); a non-empty list longer than max_samples_per_request gives 413
    with store and cache unchanged. *)
Theorem ingest_empty_then_batch_cap :
  forall cfg dev req st c samples,
    well_formed_request cfg req samples ->
    (samples = [] -> Ingest.ingest cfg (Some dev) req st c = (Ingest.Inserted 0, st, c)) /\
    (samples <> [] -> Ingest.MAX_SAMPLES_PER_REQUEST cfg < Z.of_nat (length samples) ->
       Ingest.ingest cfg (Some dev) req st c = (Ingest.HttpError 413, st, c)).
Proof.
  intros cfg dev req st c samples Hwf.
  rewrite (ingest_reaches_payload cfg dev req st c samples Hwf).
  split.
  - intros ->. reflexivity.
  - intros Hne Hlt. destruct samples as [| s rest]; [contradiction |].
    apply Z.ltb_lt in Hlt. rewrite Hlt. reflexivity.
Qed.

Definition demo_sample (dev : string) (t : Z) : Ingest.SampleIn :=
  Ingest.mkSampleIn dev t 3500 (Some (25#2)) (-1500) 75 (Some 25%Q) 2000 0 1.

Lemma ingest_empty_then_batch_cap_witness :
  Ingest.ingest (Ingest.mkConfig 1048576 0) (Some "dev-1")
      (Ingest.mkRequest (Some (Some 15)) 15 (Some [])) ∅ ∅ = (Ingest.Inserted 0, ∅, ∅) /\
  Ingest.ingest (Ingest.mkConfig 1048576 5) (Some "dev-1")
      (Ingest.mkRequest None 900 (Some (map (demo_sample "dev-1") [1; 2; 3; 4; 5; 6]))) ∅ ∅
    = (Ingest.HttpError 413, ∅, ∅).
Proof.
  split.
  - refine (proj1 (ingest_empty_then_batch_cap (Ingest.mkConfig 1048576 0) "dev-1"
                   (Ingest.mkRequest (Some (Some 15)) 15 (Some [])) ∅ ∅ [] _) eq_refl).
    split; [| split].
    + right. exists 15%Z. split; [reflexivity | simpl; lia].
    + simpl. lia.
    + reflexivity.
  - refine (proj2 (ingest_empty_then_batch_cap (Ingest.mkConfig 1048576 5) "dev-1"
                   (Ingest.mkRequest None 900 (Some (map (demo_sample "dev-1") [1; 2; 3; 4; 5; 6])))
                   ∅ ∅ (map (demo_sample "dev-1") [1; 2; 3; 4; 5; 6]) _) _ _).
    + split; [left; reflexivity | split; [simpl; lia | reflexivity]].
    + discriminate.
    + simpl. lia.
Defined.

(* ------------------------------------------------------------------ *)
(** ** Uploader: acknowledgement and backoff *)

Definition demo_uploader : Uploader.Uploader :=
  Uploader.mkUploader "https://solar.example.com" "tok-123" 30
    Uploader._DEFAULT_MAX_BACKOFF_S Uploader._INITIAL_BACKOFF_S.

Definition demo_spool : Spool.Spool :=
  Spool.mkSpool (Spool.mkSpoolFile [(1, "{}"); (2, "{}")] 2) true.

Definition demo_loads : string -> option unit := fun _ => Some tt.

(** C1 (counterexample): the server answers 201, a 2xx status; the
    uploader does not ack, doubles the backoff and returns false. *)
Lemma upload_201_is_not_acked :
  (200 <= 201 < 300)%Z /\
  Uploader.upload_batch demo_loads demo_uploader demo_spool
      (fun _ _ _ => Uploader.HttpResponse 201) =
    ([Uploader.CallPeek 30;
      Uploader.CallPost "https://solar.example.com/v1/ingest" "Bearer tok-123" [tt; tt]],
     Ret false, demo_spool, Uploader._increase_backoff demo_uploader).
Proof. split; [lia | reflexivity]. Qed.

(** C1 (amended): for a call on a non-empty spool whose payloads decode,
    if the POST to [{base_url}/v1/ingest] answers status 200, [ack] is
    called with exactly the rowids of the peeked rows, the backoff is reset
    to 1 s and the call returns true; if it answers any other status
    (including other 2xx codes), times out or fails to connect, [ack] is
    not called, the spool is unchanged, the backoff becomes
    [min(2 * backoff, max_backoff_s)] and the call returns false. *)
Theorem upload_batch_ack_iff_200 :
  forall {json} (json_loads : string -> option json) (u : Uploader.Uploader)
         (spool : Spool.Spool) post (rows : list (Z * string)) (samples : list json),
    Spool.peek spool (Uploader.batch_size u) = Ret rows ->
    rows <> [] ->
    Uploader.loads_all json_loads (map snd rows) = Some samples ->
    let url := (Uploader.vps_base_url u ++ "/v1/ingest")%string in
    let auth := ("Bearer " ++ Uploader.vps_device_token u)%string in
    (post url auth samples = Uploader.HttpResponse 200 ->
       exists spool',
         Spool.ack spool (map fst rows) = Ret spool' /\
         Uploader.upload_batch json_loads u spool post =
           ([Uploader.CallPeek (Uploader.batch_size u); Uploader.CallPost url auth samples;
             Uploader.CallAck (map fst rows)],
            Ret true, spool', Uploader._reset_backoff u) /\
         Uploader.current_backoff (Uploader._reset_backoff u) = 1%Q) /\
    ((exists code, post url auth samples = Uploader.HttpResponse code /\ code <> 200) \/
     post url auth samples = Uploader.TimeoutException \/
     post url auth samples = Uploader.ConnectError ->
       Uploader.upload_batch json_loads u spool post =
         ([Uploader.CallPeek (Uploader.batch_size u); Uploader.CallPost url auth samples],
          Ret false, spool, Uploader._increase_backoff u) /\
       Uploader.current_backoff (Uploader._increase_backoff u) =
         Qmin (Uploader.current_backoff u * 2) (Uploader.max_backoff_s u)).
Proof.
  intros json json_loads u spool post rows samples Hpeek Hne Hloads url auth.
  assert (Hopen : Spool.opened spool = true).
  { unfold Spool.peek in Hpeek. destruct (Spool.opened spool); [reflexivity | discriminate]. }
  unfold Uploader.upload_batch. rewrite Hpeek.
  destruct rows as [| r rs]; [contradiction |].
  rewrite Hloads. fold url auth.
  split.
  - intros Hpost. rewrite Hpost.
    assert (Hack : exists s', Spool.ack spool (map fst (r :: rs)) = Ret s').
    { unfold Spool.ack. rewrite Hopen. simpl. eexists. reflexivity. }
    destruct Hack as (s' & Hs'). cbv zeta. rewrite Hs'.
    exists s'. split; [reflexivity |]. split; reflexivity.
  - intros Hpost. split; [| reflexivity].
    destruct Hpost as [(code & Hc & Hcode) | [Hc | Hc]]; rewrite Hc; [| reflexivity | reflexivity].
    apply Z.eqb_neq in Hcode. rewrite Hcode. reflexivity.
Qed.

Lemma upload_batch_ack_iff_200_witness :
  (exists spool',
     Uploader.upload_batch demo_loads demo_uploader demo_spool
         (fun _ _ _ => Uploader.HttpResponse 200) =
       ([Uploader.CallPeek 30;
         Uploader.CallPost "https://solar.example.com/v1/ingest" "Bearer tok-123" [tt; tt];
         Uploader.CallAck [1; 2]],
        Ret true, spool', Uploader._reset_backoff demo_uploader)) /\
  Uploader.upload_batch demo_loads demo_uploader demo_spool
      (fun _ _ _ => Uploader.TimeoutException) =
    ([Uploader.CallPeek 30;
      Uploader.CallPost "https://solar.example.com/v1/ingest" "Bearer tok-123" [tt; tt]],
     Ret false, demo_spool, Uploader._increase_backoff demo_uploader).
Proof.
  split.
  - destruct (proj1 (upload_batch_ack_iff_200 demo_loads demo_uploader demo_spool
                       (fun _ _ _ => Uploader.HttpResponse 200)
                       [(1, "{}"); (2, "{}")] [tt; tt]
                       eq_refl ltac:(discriminate) eq_refl) eq_refl)
      as (spool' & _ & Hrun & _).
    exists spool'. exact Hrun.
  - exact (proj1 (proj2 (upload_batch_ack_iff_200 demo_loads demo_uploader demo_spool
                           (fun _ _ _ => Uploader.TimeoutException)
                           [(1, "{}"); (2, "{}")] [tt; tt]
                           eq_refl ltac:(discriminate) eq_refl)
                    (or_intror (or_introl eq_refl)))).
Defined.

(* ------------------------------------------------------------------ *)
(** ** Backoff in the uploader and in the poller *)

Lemma Qmin_left (x y : Q) : (x <= y)%Q -> (Qmin x y == x)%Q.
Proof. apply Q.min_l. Qed.

Lemma Qmin_right (x y : Q) : (y <= x)%Q -> (Qmin x y == y)%Q.
Proof. apply Q.min_r. Qed.

Lemma Qle_double (x : Q) : (0 <= x)%Q -> (x <= x * 2)%Q.
Proof.
  intros Hx. destruct x as [p q]. unfold Qle in *. simpl in *.
  rewrite Pos.mul_1_r. nia.
Qed.

Lemma Qmin_double_capped (a m : Q) :
  (0 <= a)%Q -> (0 <= m)%Q -> (Qmin (Qmin a m * 2) m == Qmin (a * 2) m)%Q.
Proof.
  intros Ha Hm.
  destruct (Qlt_le_dec m a) as [Hma | Ham].
  - rewrite (Qmin_right a m) by (apply Qlt_le_weak; exact Hma).
    rewrite (Qmin_right (m * 2) m) by (apply Qle_double; exact Hm).
    rewrite (Qmin_right (a * 2) m); [reflexivity |].
    apply Qle_trans with a; [apply Qlt_le_weak; exact Hma |].
    apply Qle_double; exact Ha.
  - rewrite (Qmin_left a m) by exact Ham. reflexivity.
Qed.

Lemma increase_backoff_iter (u : Uploader.Uploader) (n : nat) :
  (1 <= Uploader.max_backoff_s u)%Q -> Uploader.current_backoff u = 1%Q ->
  (Uploader.current_backoff (Nat.iter n Uploader._increase_backoff u)
     == Qmin (inject_Z (2 ^ Z.of_nat n)) (Uploader.max_backoff_s u))%Q.
Proof.
  intros Hm Hu. induction n as [| n IH].
  - simpl. rewrite Hu. rewrite Qmin_left by exact Hm. reflexivity.
  - rewrite Nat.iter_succ. unfold Uploader._increase_backoff at 1. simpl.
    assert (Hmax : Uploader.max_backoff_s (Nat.iter n Uploader._increase_backoff u)
                   = Uploader.max_backoff_s u).
    { clear IH. induction n as [| n IHn]; [reflexivity | rewrite Nat.iter_succ; exact IHn]. }
    rewrite Hmax, IH.
    rewrite Qmin_double_capped.
    + rewrite Nat2Z.inj_succ, Z.pow_succ_r by lia.
      rewrite Z.mul_comm, inject_Z_mult. reflexivity.
    + change 0%Q with (inject_Z 0). rewrite <- Zle_Qle.
      apply Z.pow_nonneg. lia.
    + apply Qle_trans with 1%Q; [discriminate | exact Hm].
Qed.

(** Claim C3 as the spec words it for the uploader: after [n] consecutive
    failures from a reset the backoff is [min(base * 2^(n-1), max)]. *)
Definition uploader_backoff_formula (u : Uploader.Uploader) (n : nat) : Prop :=
  (Uploader.current_backoff (Nat.iter n Uploader._increase_backoff u)
     == Qmin (1 * inject_Z (2 ^ (Z.of_nat n - 1))) (Uploader.max_backoff_s u))%Q.

(** C3 (counterexample): after three consecutive failures from the initial
    1 s the uploader's backoff is 8 s, while [min(1 * 2^(3-1), 300)] is 4 s:
    the uploader's value after [n] failures is [min(2^n, max)]. *)
Lemma uploader_backoff_after_three_failures_is_8 :
  (Uploader.current_backoff (Nat.iter 3 Uploader._increase_backoff demo_uploader) == 8)%Q /\
  ~ uploader_backoff_formula demo_uploader 3.
Proof.
  split.
  - reflexivity.
  - unfold uploader_backoff_formula. vm_compute. discriminate.
Qed.

(** C3 (amended): the uploader starts at (and resets to) 1 s and after [n]
    consecutive failures holds [min(2^n, max_backoff_s)] (for
    [max_backoff_s >= 1]); in particular after three failures it is 8 s and
    after one success 1 s.  The poller, with [n] consecutive failures,
    sleeps [min(1 * 2^(n-1), 60)] before the attempt when [0 < n <= 1024]
    and does not sleep when [n = 0]; a success resets the counter to 0 and a
    failure increments it. *)
Theorem backoff_uploader_and_poller :
  (forall (u : Uploader.Uploader) (n : nat),
     (1 <= Uploader.max_backoff_s u)%Q -> Uploader.current_backoff u = 1%Q ->
     (Uploader.current_backoff (Nat.iter n Uploader._increase_backoff u)
        == Qmin (inject_Z (2 ^ Z.of_nat n)) (Uploader.max_backoff_s u))%Q /\
     Uploader.current_backoff (Uploader._reset_backoff (Nat.iter n Uploader._increase_backoff u))
       = 1%Q) /\
  (Uploader.current_backoff (Nat.iter 3 Uploader._increase_backoff demo_uploader) == 8)%Q /\
  Uploader.current_backoff
    (Uploader._reset_backoff (Nat.iter 3 Uploader._increase_backoff demo_uploader)) = 1%Q /\
  (forall {A} (n : Z) (result : option A),
     0 <= n <= 1024 ->
     let next := match result with Some _ => 0 | None => n + 1 end in
     (n = 0 -> PollerBackoff.poll n result = Ret (None, result, next)) /\
     (0 < n -> exists delay,
        PollerBackoff.poll n result = Ret (Some delay, result, next) /\
        (delay == Qmin (inject_Z (2 ^ (n - 1))) 60)%Q)).
Proof.
  split; [| split; [| split]].
  - intros u n Hm Hu. split; [apply increase_backoff_iter; assumption | reflexivity].
  - apply increase_backoff_iter; [discriminate | reflexivity].
  - reflexivity.
  - intros A n result Hn next. split.
    + intros ->. reflexivity.
    + intros Hpos. unfold PollerBackoff.poll, PollerBackoff.backoff_delay.
      apply Z.ltb_lt in Hpos as Hpos'. rewrite Hpos'. fold next.
      assert (Hp : 2 ^ (n - 1) < 2 ^ 1024) by (apply Z.pow_lt_mono_r; lia).
      apply Z.ltb_lt in Hp. rewrite Hp.
      eexists. split; [reflexivity |].
      unfold PollerBackoff.BASE_BACKOFF_S, PollerBackoff.MAX_BACKOFF_S.
      rewrite Qmult_1_l. reflexivity.
Qed.

Lemma backoff_uploader_and_poller_witness :
  (Uploader.current_backoff (Nat.iter 10 Uploader._increase_backoff demo_uploader)
     == Qmin (inject_Z (2 ^ 10)) 300)%Q /\
  PollerBackoff.poll 0 (Some tt) = Ret (None, Some tt, 0) /\
  (exists delay, PollerBackoff.poll 3 (@None unit) = Ret (Some delay, None, 4) /\
                 (delay == Qmin (inject_Z (2 ^ 2)) 60)%Q).
Proof.
  destruct backoff_uploader_and_poller as (Hu & _ & _ & Hp).
  split; [| split].
  - exact (proj1 (Hu demo_uploader 10%nat ltac:(discriminate) eq_refl)).
  - exact (proj1 (Hp unit 0 (Some tt) ltac:(lia)) eq_refl).
  - exact (proj2 (Hp unit 3 None ltac:(lia)) ltac:(lia)).
Defined.

(* ------------------------------------------------------------------ *)
(** ** Spool: sequences are never reused *)

Module SpoolFacts.
Import Spool.

(** Every rowid in the table is at most the recorded sequence. *)
Definition seq_inv (f : SpoolFile) : Prop :=
  0 <= sqlite_seq f /\ Forall (fun r => fst r <= sqlite_seq f) (rows f).

Lemma max_rowid_le (rs : list (Z * string)) (bound : Z) :
  0 <= bound -> Forall (fun r => fst r <= bound) rs -> max_rowid rs <= bound.
Proof.
  unfold max_rowid. intros H0 Hall.
  assert (Hgen : forall acc, acc <= bound ->
            foldl (fun m r => Z.max m (fst r)) acc rs <= bound).
  { induction Hall as [| r rs' Hr Hrs IH]; intros acc Hacc; simpl; [exact Hacc |].
    apply IH. lia. }
  apply Hgen. exact H0.
Qed.

Lemma enqueue_spec (s : Spool) (p : string) (s' : Spool) (rid : Z) :
  seq_inv (file s) -> enqueue s p = Ret (s', rid) ->
  rid = sqlite_seq (file s) + 1 /\ sqlite_seq (file s') = rid /\ seq_inv (file s').
Proof.
  intros [Hs Hall] He. unfold enqueue, autoincrement_next in He.
  destruct (opened s); [| discriminate]. simpl in He.
  pose proof (max_rowid_le (rows (file s)) (sqlite_seq (file s)) Hs Hall) as Hm.
  rewrite Z.max_l in He by exact Hm.
  destruct (sqlite_seq (file s) <? MAX_ROWID); [| discriminate].
  injection He as <- <-. unfold seq_inv. simpl.
  split; [reflexivity | split; [reflexivity |]].
  split; [lia |]. apply Forall_app. split.
  - eapply Forall_impl; [exact Hall | intros r Hr; simpl in Hr; lia].
  - constructor; [simpl; lia | constructor].
Qed.

Lemma ack_spec (s s' : Spool) (l : list Z) :
  seq_inv (file s) -> ack s l = Ret s' ->
  sqlite_seq (file s') = sqlite_seq (file s) /\ seq_inv (file s').
Proof.
  intros [Hs Hall] Ha. unfold ack in Ha.
  destruct (opened s); [| discriminate]. simpl in Ha.
  destruct l as [| x xs]; injection Ha as <-; [split; [reflexivity | split; assumption] |].
  simpl. split; [reflexivity | split; [exact Hs |]].
  rewrite Forall_forall in Hall |- *. intros r Hr.
  simpl in Hr. apply list_elem_of_filter in Hr. apply Hall. exact (proj2 Hr).
Qed.

Lemma run_spec (ops : list op) :
  forall s, seq_inv (file s) ->
    let '(s', assigned) := run s ops in
    seq_inv (file s') /\ sqlite_seq (file s) <= sqlite_seq (file s') /\
    Forall (fun x => sqlite_seq (file s) < x <= sqlite_seq (file s')) assigned /\
    StronglySorted Z.lt assigned.
Proof.
  induction ops as [| o ops IH]; intros s Hinv; simpl.
  - split; [exact Hinv | split; [lia | split; constructor]].
  - destruct o as [p | n | l | | |].
    + destruct (enqueue s p) as [[s1 rid] |] eqn:He.
      * destruct (enqueue_spec s p s1 rid Hinv He) as (Hrid & Hseq1 & Hinv1).
        specialize (IH s1 Hinv1). destruct (run s1 ops) as [s2 a] eqn:Hr.
        destruct IH as (Hinv2 & Hle & Hall & Hsorted).
        split; [exact Hinv2 | split; [lia | split]].
        -- constructor; [cbv beta; lia |].
           eapply Forall_impl; [exact Hall | intros x Hx; cbv beta in *; lia].
        -- constructor; [exact Hsorted |].
           eapply Forall_impl; [exact Hall | intros x Hx; cbv beta in *; lia].
      * apply IH. exact Hinv.
    + apply IH. exact Hinv.
    + destruct (ack s l) as [s1 |] eqn:Ha.
      * destruct (ack_spec s s1 l Hinv Ha) as (Hseq1 & Hinv1).
        specialize (IH s1 Hinv1). destruct (run s1 ops) as [s2 a].
        rewrite Hseq1 in IH. exact IH.
      * apply IH. exact Hinv.
    + apply IH. exact Hinv.
    + apply (IH (close s)). exact Hinv.
    + apply (IH (open_ s)). exact Hinv.
Qed.

Lemma fresh_inv : seq_inv (file fresh).
Proof. split; [simpl; lia | constructor]. Qed.

Lemma run_from_fresh_inv (ops : list op) : seq_inv (file (fst (run fresh ops))).
Proof.
  pose proof (run_spec ops fresh fresh_inv) as H.
  destruct (run fresh ops) as [s' a]. exact (proj1 H).
Qed.

End SpoolFacts.

(** C6: over any sequence of enqueue, peek, ack, count, close and reopen
    operations on one backing file, the rowids assigned by the enqueues are
    strictly increasing; and once a row with sequence [s] has been deleted
    by an ack, no later enqueue assigns [s] again. *)
Theorem spool_sequences_never_reused :
  (forall ops : list Spool.op, StronglySorted Z.lt (snd (Spool.run Spool.fresh ops))) /\
  (forall (ops1 : list Spool.op) (rowids : list Z) (ops2 : list Spool.op) (s : Z),
     let st := fst (Spool.run Spool.fresh ops1) in
     s ∈ Spool.rowids_of st -> s ∈ rowids ->
     s ∉ snd (Spool.run st (Spool.OpAck rowids :: ops2))).
Proof.
  split.
  - intros ops. pose proof (SpoolFacts.run_spec ops Spool.fresh SpoolFacts.fresh_inv) as H.
    destruct (Spool.run Spool.fresh ops) as [s' a]. exact (proj2 (proj2 (proj2 H))).
  - intros ops1 rowids ops2 s st Hin _ Hreused.
    pose proof (SpoolFacts.run_from_fresh_inv ops1) as Hinv. fold st in Hinv.
    assert (Hs : s <= Spool.sqlite_seq (Spool.file st)).
    { destruct Hinv as [_ Hall]. unfold Spool.rowids_of in Hin.
      apply list_elem_of_In, in_map_iff in Hin. destruct Hin as (r & <- & Hr).
      rewrite Forall_forall in Hall. apply Hall. apply list_elem_of_In. exact Hr. }
    pose proof (SpoolFacts.run_spec (Spool.OpAck rowids :: ops2) st Hinv) as H.
    destruct (Spool.run st (Spool.OpAck rowids :: ops2)) as [s' a].
    destruct H as (_ & _ & Hall & _). simpl in Hreused.
    rewrite Forall_forall in Hall.
    specialize (Hall s Hreused). lia.
Qed.

Lemma spool_sequences_never_reused_witness :
  let ops1 := [Spool.OpOpen; Spool.OpEnqueue "a"; Spool.OpEnqueue "b"; Spool.OpEnqueue "c";
               Spool.OpClose; Spool.OpOpen] in
  snd (Spool.run Spool.fresh ops1) = [1; 2; 3] /\
  snd (Spool.run (fst (Spool.run Spool.fresh ops1))
         [Spool.OpAck [1; 2; 3]; Spool.OpClose; Spool.OpOpen; Spool.OpEnqueue "d"]) = [4] /\
  3 ∉ snd (Spool.run (fst (Spool.run Spool.fresh ops1))
             [Spool.OpAck [1; 2; 3]; Spool.OpClose; Spool.OpOpen; Spool.OpEnqueue "d"]).
Proof.
  intros ops1. split; [reflexivity | split; [reflexivity |]].
  apply (proj2 spool_sequences_never_reused ops1 [1; 2; 3]
           [Spool.OpClose; Spool.OpOpen; Spool.OpEnqueue "d"] 3).
  - vm_compute. right. right. left.
  - right. right. left.
Defined.

(* ------------------------------------------------------------------ *)
(** ** Idempotent ingest *)

Module IngestFacts.
Import Ingest.

(** The set of keys [(device_id, ts)] of a batch. *)
Definition batch_keys (rows : list SampleIn) : gset (string * Z) :=
  list_to_set (map sample_key rows).

Lemma insert_spec (rows : list SampleIn) :
  forall (st : Store),
    let '(st', n) := insert_on_conflict_do_nothing st rows in
    dom st' = dom st ∪ batch_keys rows /\
    n = Z.of_nat (size (batch_keys rows ∖ dom st)).
Proof.
  unfold batch_keys.
  induction rows as [| r rest IH]; intros st; simpl.
  - split; [set_solver |].
    assert (He : (∅ : gset (string * Z)) ∖ dom st = ∅) by set_solver.
    rewrite He, size_empty. reflexivity.
  - destruct (st !! sample_key r) as [x |] eqn:Hk.
    + specialize (IH st). destruct (insert_on_conflict_do_nothing st rest) as [st' n].
      destruct IH as [Hdom Hn].
      assert (Hin : sample_key r ∈ dom st) by (apply elem_of_dom; rewrite Hk; eauto).
      split; [rewrite Hdom; set_solver |].
      assert (Heq : ({[sample_key r]} ∪ list_to_set (map sample_key rest)) ∖ dom st
                    = (list_to_set (map sample_key rest) : gset (string * Z)) ∖ dom st)
        by set_solver.
      rewrite Heq. exact Hn.
    + specialize (IH (<[sample_key r := r]> st)).
      destruct (insert_on_conflict_do_nothing (<[sample_key r := r]> st) rest) as [st' n].
      destruct IH as [Hdom Hn].
      assert (Hnin : sample_key r ∉ dom st) by (apply not_elem_of_dom; exact Hk).
      rewrite dom_insert_L in Hdom, Hn.
      split; [rewrite Hdom; set_solver |].
      assert (Heq : ({[sample_key r]} ∪ list_to_set (map sample_key rest)) ∖ dom st
                    = {[sample_key r]} ∪
                      ((list_to_set (map sample_key rest) : gset (string * Z))
                         ∖ ({[sample_key r]} ∪ dom st))).
      { apply set_eq. intros k. set_unfold.
        destruct (decide (k = sample_key r)) as [-> | Hne]; [tauto | tauto]. }
      rewrite Heq, size_union by set_solver. rewrite size_singleton. lia.
Qed.

Lemma insert_all_present (rows : list SampleIn) (st : Store) :
  (forall r, r ∈ rows -> sample_key r ∈ dom st) ->
  insert_on_conflict_do_nothing st rows = (st, 0).
Proof.
  induction rows as [| r rest IH]; intros Hall; simpl; [reflexivity |].
  assert (Hr : sample_key r ∈ dom st) by (apply Hall; left).
  apply elem_of_dom in Hr. destruct Hr as [x Hx]. rewrite Hx.
  apply IH. intros r' Hr'. apply Hall. right. exact Hr'.
Qed.

Lemma distinct_keys_size (rows : list SampleIn) :
  size (batch_keys rows) = length (remove_dups (map sample_key rows)).
Proof.
  unfold batch_keys.
  rewrite <- (size_list_to_set (C:=gset (string * Z)) (remove_dups (map sample_key rows)))
    by apply NoDup_remove_dups.
  f_equal. apply set_eq. intros k.
  rewrite !elem_of_list_to_set, elem_of_remove_dups. reflexivity.
Qed.

End IngestFacts.

(** C7: starting from a store holding none of the batch's keys, ingesting a
    batch and then the same batch again reports inserted counts summing to
    the number of distinct [(device_id, ts)] pairs of the batch, and the
    second ingest leaves the store (and the cache) unchanged. *)
Theorem ingest_twice_counts_distinct_keys :
  forall (st : Ingest.Store) (c : Ingest.Cache) (dev : string) (batch : list Ingest.SampleIn),
    (forall r, r ∈ batch -> st !! Ingest.sample_key r = None) ->
    let '(st1, c1, n1) := Ingest.ingest_samples st c dev batch in
    let '(st2, c2, n2) := Ingest.ingest_samples st1 c1 dev batch in
    n1 + n2 = Z.of_nat (length (remove_dups (map Ingest.sample_key batch))) /\
    st2 = st1 /\ c2 = c1.
Proof.
  intros st c dev batch Hfresh.
  destruct batch as [| r0 rest] eqn:Hb; [simpl; auto |].
  rewrite <- Hb. rewrite <- Hb in Hfresh.
  assert (Hne : batch <> []) by (rewrite Hb; discriminate).
  unfold Ingest.ingest_samples at 1. rewrite Hb. rewrite <- Hb.
  pose proof (IngestFacts.insert_spec batch st) as Hspec.
  destruct (Ingest.insert_on_conflict_do_nothing st batch) as [st1 n1] eqn:Hins.
  destruct Hspec as [Hdom Hn1].
  set (c1 := if 0 <? n1 then Ingest.invalidate_device_cache c dev else c).
  assert (Hsecond : Ingest.insert_on_conflict_do_nothing st1 batch = (st1, 0)).
  { apply IngestFacts.insert_all_present. intros r Hr. rewrite Hdom.
    apply elem_of_union_r. unfold IngestFacts.batch_keys.
    apply elem_of_list_to_set. apply list_elem_of_fmap. eexists; split; [reflexivity | exact Hr]. }
  unfold Ingest.ingest_samples. rewrite Hb. rewrite <- Hb. rewrite Hsecond. simpl.
  split; [| split; reflexivity].
  rewrite Hn1, <- IngestFacts.distinct_keys_size.
  assert (Hdisj : IngestFacts.batch_keys batch ∖ dom st = IngestFacts.batch_keys batch).
  { apply set_eq. intros k. rewrite elem_of_difference. split; [tauto |].
    intros Hk. split; [exact Hk |].
    unfold IngestFacts.batch_keys in Hk. apply elem_of_list_to_set, list_elem_of_fmap in Hk.
    destruct Hk as (r & -> & Hr). apply not_elem_of_dom. apply Hfresh. exact Hr. }
  rewrite Hdisj. lia.
Qed.

Lemma ingest_twice_counts_distinct_keys_witness :
  let batch := [demo_sample "dev-1" 100; demo_sample "dev-1" 200; demo_sample "dev-1" 100] in
  let '(st1, c1, n1) := Ingest.ingest_samples ∅ ∅ "dev-1" batch in
  let '(st2, c2, n2) := Ingest.ingest_samples st1 c1 "dev-1" batch in
  n1 + n2 = Z.of_nat (length (remove_dups (map Ingest.sample_key batch))) /\
  st2 = st1 /\ c2 = c1.
Proof.
  intros batch.
  apply (ingest_twice_counts_distinct_keys ∅ ∅ "dev-1" batch).
  intros r _. apply lookup_empty.
Defined.

(* ------------------------------------------------------------------ *)
(** ** Poll cycle: the optional export group *)

Module PollerFacts.
Import Registers Poller.

Section Cycle.
Context (read : RegisterGroup -> read_response) (delay : Z).

(** The group index only decides the inter-group sleeps. *)
Lemma poll_groups_outcome_idx (groups : list RegisterGroup) :
  forall i j acc,
    snd (poll_groups read delay i groups acc) = snd (poll_groups read delay j groups acc).
Proof.
  induction groups as [| g gs IH]; intros i j acc; simpl; [reflexivity |].
  destruct (read g) as [regs | code |]; simpl.
  - specialize (IH (S i) (S j) (_extract_register_values g regs acc)).
    destruct (poll_groups read delay (S i) gs _) as [t1 r1].
    destruct (poll_groups read delay (S j) gs _) as [t2 r2]. exact IH.
  - destruct (String.eqb (group_name g) "export"); [| reflexivity].
    specialize (IH (S i) (S j) acc).
    destruct (poll_groups read delay (S i) gs acc) as [t1 r1].
    destruct (poll_groups read delay (S j) gs acc) as [t2 r2]. exact IH.
  - reflexivity.
Qed.

Lemma skip_failed_group (g : RegisterGroup) (code : Z) (post : list RegisterGroup) :
  group_name g = "export" -> read g = RespError code ->
  forall pre i acc,
    snd (poll_groups read delay i (pre ++ g :: post) acc) =
    snd (poll_groups read delay i (pre ++ post) acc).
Proof.
  intros Hname Hread pre.
  induction pre as [| p pre IH]; intros i acc; simpl.
  - rewrite Hread, Hname. simpl.
    pose proof (poll_groups_outcome_idx post (S i) i acc) as Hidx.
    destruct (poll_groups read delay (S i) post acc) as [t r]. exact Hidx.
  - destruct (read p) as [regs | c |]; simpl.
    + specialize (IH (S i) (_extract_register_values p regs acc)).
      destruct (poll_groups read delay (S i) (pre ++ g :: post) _) as [t1 r1].
      destruct (poll_groups read delay (S i) (pre ++ post) _) as [t2 r2]. exact IH.
    + destruct (String.eqb (group_name p) "export"); [| reflexivity].
      specialize (IH (S i) acc).
      destruct (poll_groups read delay (S i) (pre ++ g :: post) acc) as [t1 r1].
      destruct (poll_groups read delay (S i) (pre ++ post) acc) as [t2 r2]. exact IH.
    + reflexivity.
Qed.

Lemma sleep_is_not_a_read (i : nat) (h : RegisterGroup) :
  ReadGroup h ∉ (if (0 <? i)%nat && (0 <? delay) then [SleepMs delay] else []).
Proof.
  destruct (_ && _); intros Hh;
    [apply list_elem_of_singleton in Hh; discriminate | apply elem_of_nil in Hh; exact Hh].
Qed.

Lemma stop_at_failed_group (g : RegisterGroup) (code : Z) (post : list RegisterGroup) :
  group_name g <> "export" -> read g = RespError code ->
  forall pre i acc,
    let '(t, r) := poll_groups read delay i (pre ++ g :: post) acc in
    (r = Ret None \/ r = Raise TransportError) /\
    (forall h, ReadGroup h ∈ t -> h ∈ pre \/ h = g).
Proof.
  intros Hname Hread pre.
  apply String.eqb_neq in Hname.
  induction pre as [| p pre IH]; intros i acc; simpl.
  - rewrite Hread, Hname. split; [left; reflexivity |].
    intros h Hh. apply elem_of_app in Hh as [Hh | Hh].
    + exfalso. exact (sleep_is_not_a_read i h Hh).
    + apply list_elem_of_singleton in Hh. injection Hh as ->. right. reflexivity.
  - pose proof (sleep_is_not_a_read i) as Hpre.
    destruct (read p) as [regs | c |]; simpl.
    + specialize (IH (S i) (_extract_register_values p regs acc)).
      destruct (poll_groups read delay (S i) (pre ++ g :: post) _) as [t r].
      destruct IH as [Hr Ht]. split; [exact Hr |].
      intros h Hh. apply elem_of_app in Hh as [Hh | Hh]; [exfalso; exact (Hpre h Hh) |].
      apply elem_of_cons in Hh as [Hh | Hh].
      * injection Hh as ->. left. left.
      * destruct (Ht h Hh) as [H | H]; [left; right; exact H | right; exact H].
    + destruct (String.eqb (group_name p) "export").
      * specialize (IH (S i) acc).
        destruct (poll_groups read delay (S i) (pre ++ g :: post) acc) as [t r].
        destruct IH as [Hr Ht]. split; [exact Hr |].
        intros h Hh. apply elem_of_app in Hh as [Hh | Hh]; [exfalso; exact (Hpre h Hh) |].
        apply elem_of_cons in Hh as [Hh | Hh].
        -- injection Hh as ->. left. left.
        -- destruct (Ht h Hh) as [H | H]; [left; right; exact H | right; exact H].
      * split; [left; reflexivity |].
        intros h Hh. apply elem_of_app in Hh as [Hh | Hh]; [exfalso; exact (Hpre h Hh) |].
        apply list_elem_of_singleton in Hh. injection Hh as ->. left. left.
    + split; [right; reflexivity |].
      intros h Hh. apply elem_of_app in Hh as [Hh | Hh]; [exfalso; exact (Hpre h Hh) |].
      apply list_elem_of_singleton in Hh. injection Hh as ->. left. left.
Qed.

Lemma extract_keeps_absent (g : RegisterGroup) (words : list Z) (k : string) :
  k ∉ map name (registers g) ->
  forall acc, acc !! k = None -> (_extract_register_values g words acc) !! k = None.
Proof.
  unfold _extract_register_values. generalize (registers g) as regs.
  intros regs Hk. induction regs as [| r rs IH]; intros acc Hacc; simpl; [exact Hacc |].
  apply IH.
  - intros Hin. apply Hk. apply elem_of_cons. right. exact Hin.
  - cbv beta zeta. rewrite lookup_insert_ne; [exact Hacc |].
    intros Heq. apply Hk. rewrite <- Heq. apply elem_of_cons. left. reflexivity.
Qed.

Lemma poll_keeps_absent (k : string) (groups : list RegisterGroup) :
  Forall (fun g => k ∉ map name (registers g)) groups ->
  forall i acc m, acc !! k = None ->
    snd (poll_groups read delay i groups acc) = Ret (Some m) -> m !! k = None.
Proof.
  induction 1 as [| g gs Hg Hgs IH]; intros i acc m Hacc Hres; simpl in Hres.
  - injection Hres as <-. exact Hacc.
  - destruct (read g) as [regs | code |].
    + specialize (IH (S i) (_extract_register_values g regs acc) m
                    (extract_keeps_absent g regs k Hg acc Hacc)).
      destruct (poll_groups read delay (S i) gs _) as [t r]. exact (IH Hres).
    + destruct (String.eqb (group_name g) "export"); [| discriminate].
      specialize (IH (S i) acc m Hacc).
      destruct (poll_groups read delay (S i) gs acc) as [t r]. exact (IH Hres).
    + discriminate.
Qed.

End Cycle.

End PollerFacts.

(** C9: in a poll cycle, any error response (whatever its Modbus exception
    code) on the group named [export] lets the cycle go on, with the same
    result as a cycle over the other groups and without the export
    registers in the map; an error response on any other group makes the
    cycle return [None], and no group after it is read. *)
Theorem poll_export_error_is_optional :
  (forall conn (read : Registers.RegisterGroup -> Poller.read_response) delay code,
     read Registers.EXPORT_GROUP = Poller.RespError code ->
     snd (Poller._do_poll conn read delay) =
       snd (Poller.do_poll_groups
              [Registers.DEVICE_GROUP; Registers.PV_GROUP; Registers.LOAD_GROUP;
               Registers.BATTERY_GROUP] conn read delay) /\
     (forall m, snd (Poller._do_poll conn read delay) = Ret (Some m) ->
        forall r, r ∈ Registers.registers Registers.EXPORT_GROUP ->
          m !! Registers.name r = None)) /\
  (forall conn (read : Registers.RegisterGroup -> Poller.read_response) delay
          (i : nat) g code,
     Registers.ALL_GROUPS !! i = Some g ->
     Registers.group_name g <> "export" ->
     read g = Poller.RespError code ->
     snd (Poller.poll_registers conn read delay) = None /\
     (forall h, Poller.ReadGroup h ∈ fst (Poller.poll_registers conn read delay) ->
        h ∈ take (S i) Registers.ALL_GROUPS)).
Proof.
  split.
  - intros conn read delay code Hexp.
    assert (Heq : snd (Poller._do_poll conn read delay) =
       snd (Poller.do_poll_groups
              [Registers.DEVICE_GROUP; Registers.PV_GROUP; Registers.LOAD_GROUP;
               Registers.BATTERY_GROUP] conn read delay)).
    { unfold Poller._do_poll, Poller.do_poll_groups.
      destruct conn; [| reflexivity | reflexivity].
      exact (PollerFacts.skip_failed_group read delay Registers.EXPORT_GROUP code
               [Registers.LOAD_GROUP; Registers.BATTERY_GROUP] eq_refl Hexp
               [Registers.DEVICE_GROUP; Registers.PV_GROUP] 0 ∅). }
    split; [exact Heq |].
    intros m Hm r Hr. rewrite Heq in Hm.
    apply list_elem_of_singleton in Hr. subst r.
    unfold Poller.do_poll_groups in Hm. destruct conn; try discriminate.
    apply (PollerFacts.poll_keeps_absent read delay "export_power"
             [Registers.DEVICE_GROUP; Registers.PV_GROUP; Registers.LOAD_GROUP;
              Registers.BATTERY_GROUP]) with (i := 0%nat) (acc := ∅); [| reflexivity | exact Hm].
    repeat constructor; apply (bool_decide_unpack _); vm_compute; exact I.
  - intros conn read delay i g code Hg Hname Hread.
    unfold Poller.poll_registers, Poller._do_poll, Poller.do_poll_groups.
    destruct conn; [| split; [reflexivity | intros h Hh; apply elem_of_nil in Hh; contradiction]
                   | split; [reflexivity | intros h Hh; apply elem_of_nil in Hh; contradiction]].
    pose proof (take_drop_middle Registers.ALL_GROUPS i g Hg) as Hsplit.
    pose proof (PollerFacts.stop_at_failed_group read delay g code
                  (drop (S i) Registers.ALL_GROUPS) Hname Hread
                  (take i Registers.ALL_GROUPS) 0 ∅) as Hstop.
    rewrite Hsplit in Hstop.
    destruct (Poller.poll_groups read delay 0 Registers.ALL_GROUPS ∅) as [t r].
    rewrite (take_S_r _ _ _ Hg).
    destruct Hstop as [Hr Ht]. cbv beta iota. split.
    + destruct Hr as [-> | ->]; reflexivity.
    + intros h Hh. apply elem_of_app.
      destruct (Ht h Hh) as [H | ->]; [left; exact H | right; apply list_elem_of_singleton; reflexivity].
Qed.

Definition export_unsupported_read (g : Registers.RegisterGroup) : Poller.read_response :=
  if String.eqb (Registers.group_name g) "export" then Poller.RespError 2
  else Poller.RespOk (repeat 0 (Z.to_nat (Registers.count g))).

Definition load_failing_read (g : Registers.RegisterGroup) : Poller.read_response :=
  if String.eqb (Registers.group_name g) "load" then Poller.RespError 4
  else Poller.RespOk (repeat 0 (Z.to_nat (Registers.count g))).

Lemma poll_export_error_is_optional_witness :
  snd (Poller._do_poll Poller.ConnOk export_unsupported_read 20) =
    snd (Poller.do_poll_groups
           [Registers.DEVICE_GROUP; Registers.PV_GROUP; Registers.LOAD_GROUP;
            Registers.BATTERY_GROUP] Poller.ConnOk export_unsupported_read 20) /\
  snd (Poller.poll_registers Poller.ConnOk load_failing_read 20) = None.
Proof.
  split.
  - exact (proj1 (proj1 poll_export_error_is_optional Poller.ConnOk export_unsupported_read
                    20 2 eq_refl)).
  - exact (proj1 (proj2 poll_export_error_is_optional Poller.ConnOk load_failing_read 20
                    3%nat Registers.LOAD_GROUP 4 eq_refl ltac:(discriminate) eq_refl)).
Defined.

Module NormalizerFacts.
Import Registers Normalizer.

Lemma normalize_fields_cons (raw : RawMap) (f r : string) fm fields :
  normalize_fields raw ((f, r) :: fm) fields =
    match field_value raw f r with
    | Some v => normalize_fields raw fm (<[f := v]> fields)
    | None => None
    end.
Proof.
  cbn [normalize_fields]. unfold field_value, extract_named.
  destruct (ALL_REGISTERS !! r) as [rd |]; [| reflexivity].
  destruct (String.eqb f "export_power_w" && _); [| reflexivity].
  destruct (ALL_REGISTERS !! "grid_power") as [gr |]; [| reflexivity].
  destruct (_extract_value gr raw); reflexivity.
Qed.

(** [normalize] stores the seven field values in a [SungrowSample], or
    returns [None] as soon as one of them is missing; it never raises. *)
Lemma normalize_spec (raw : RawMap) dev ts :
  normalize raw dev ts =
    match field_value raw "pv_power_w" "total_dc_power",
          field_value raw "pv_daily_kwh" "daily_pv_generation",
          field_value raw "battery_power_w" "battery_power",
          field_value raw "battery_soc_pct" "battery_soc",
          field_value raw "battery_temp_c" "battery_temperature",
          field_value raw "load_power_w" "load_power",
          field_value raw "export_power_w" "export_power" with
    | Some a, Some b, Some c, Some d, Some e, Some f, Some g =>
        Ret (Some (mkSungrowSample dev ts a b c d e f g))
    | _, _, _, _, _, _, _ => Ret None
    end.
Proof.
  unfold normalize, _FIELD_MAP.
  repeat (rewrite normalize_fields_cons;
          match goal with |- context [field_value raw ?f ?r] =>
            destruct (field_value raw f r); cbv beta iota end);
  vm_compute; reflexivity.
Qed.

Lemma field_value_other (raw : RawMap) (f r : string) :
  String.eqb f "export_power_w" = false ->
  field_value raw f r = extract_named r raw.
Proof.
  intros Hf. unfold field_value, extract_named. rewrite Hf. cbn [andb].
  destruct (ALL_REGISTERS !! r); reflexivity.
Qed.

Lemma lookup_export_power :
  ALL_REGISTERS !! "export_power" = Some (reg 5083 "export_power" S32 "W" 1 (rng (-20000) 20000) 0).
Proof. vm_compute. reflexivity. Qed.

Lemma field_value_export_absent (raw : RawMap) :
  raw !! "export_power" = None ->
  field_value raw "export_power_w" "export_power" =
    match extract_named "grid_power" raw with
    | Some g => Some (- g)%Q
    | None => None
    end.
Proof.
  intros Habs. unfold field_value. rewrite Habs, lookup_export_power.
  rewrite (bool_decide_eq_false_2 (is_Some (@None (list Z)))) by (intros [? Hx]; discriminate).
  change (String.eqb "export_power_w" "export_power_w") with true. cbv [andb negb].
  destruct (extract_named "grid_power" raw); [reflexivity |].
  unfold _extract_value. cbn [name reg]. rewrite Habs. reflexivity.
Qed.

Lemma extract_named_absent (raw : RawMap) (n : string) :
  match ALL_REGISTERS !! n with Some r => name r = n | None => True end ->
  raw !! n = None -> extract_named n raw = None.
Proof.
  intros Hn Habs. unfold extract_named.
  destruct (ALL_REGISTERS !! n) as [r |]; [| reflexivity].
  unfold _extract_value. rewrite Hn, Habs. reflexivity.
Qed.

End NormalizerFacts.

(** C4: for an S32 register with a valid range, when the value assembled
    from the high word [hi_w] and the low word [lo_w] (two's complement,
    times the scale) is out of range, extraction returns the S16 reading
    of the low word times the scale if the high word is 0x0000 or 0xFFFF
    and that reading is in range, and returns [None] otherwise. *)
Theorem s32_low_word_fallback :
  forall (reg_def : Registers.RegisterDef) (raw : Normalizer.RawMap) (lo hi : Q)
         (hi_w lo_w : Z) (rest : list Z),
    Registers.reg_type reg_def = Registers.S32 ->
    Registers.valid_range reg_def = Some (lo, hi) ->
    raw !! Registers.name reg_def = Some (hi_w :: lo_w :: rest) ->
    Normalizer.in_range lo hi
      (inject_Z (Normalizer._convert_s32 hi_w lo_w) * Registers.scale reg_def) = false ->
    ((hi_w = 0 \/ hi_w = 65535) ->
       Normalizer.in_range lo hi
         (inject_Z (Normalizer._convert_s16 lo_w) * Registers.scale reg_def) = true ->
       Normalizer._extract_value reg_def raw =
         Some (inject_Z (Normalizer._convert_s16 lo_w) * Registers.scale reg_def)%Q) /\
    (~ (hi_w = 0 \/ hi_w = 65535) \/
       Normalizer.in_range lo hi
         (inject_Z (Normalizer._convert_s16 lo_w) * Registers.scale reg_def) = false ->
       Normalizer._extract_value reg_def raw = None).
Proof.
  intros reg_def raw lo hi hi_w lo_w rest Htype Hrange Hraw Hout.
  unfold Normalizer._extract_value. rewrite Hraw, Htype, Hrange.
  cbv beta iota zeta delta [Registers.reg_type_eqb andb]. rewrite Hout.
  split.
  - intros Hw Hin. rewrite Hin.
    destruct Hw as [-> | ->]; reflexivity.
  - intros Hno.
    destruct (Z.eqb_spec hi_w 0) as [H0 | H0]; destruct (Z.eqb_spec hi_w 65535) as [H1 | H1];
      cbv beta iota delta [orb];
      try reflexivity;
      (destruct Hno as [Hno | Hno]; [exfalso; tauto | rewrite Hno; reflexivity]).
Qed.

Definition load_power_reg : Registers.RegisterDef :=
  Registers.reg 13008 "load_power" Registers.S32 "W" 1 (Registers.rng (-20000) 50000) 0.

Definition legacy_load_raw : Normalizer.RawMap := {[ "load_power" := [0; 62000] ]}.

Lemma s32_low_word_fallback_witness :
  Normalizer._extract_value load_power_reg legacy_load_raw =
    Some (inject_Z (Normalizer._convert_s16 62000) * 1)%Q.
Proof.
  apply (proj1 (s32_low_word_fallback load_power_reg legacy_load_raw
                  (inject_Z (-20000)) (inject_Z 50000) 0 62000 []
                  eq_refl eq_refl ltac:(vm_compute; reflexivity) ltac:(vm_compute; reflexivity))).
  - left. reflexivity.
  - vm_compute. reflexivity.
Defined.

(** C5 as stated fails: with only [grid_power] in the raw map (no
    [export_power]), [grid_power] extracts to 5 but [normalize] returns
    [None], because the other registers of the sample are missing. *)
Definition grid_only_raw : Normalizer.RawMap := {[ "grid_power" := [5] ]}.

Lemma export_fallback_needs_other_fields :
  ~ (forall (raw : Normalizer.RawMap) dev ts g,
       raw !! "export_power" = None ->
       Normalizer.extract_named "grid_power" raw = Some g ->
       exists s, Normalizer.normalize raw dev ts = Ret (Some s) /\
                 Normalizer.export_power_w s = (- g)%Q).
Proof.
  intros H.
  destruct (H grid_only_raw "inv-1" 0 (inject_Z 5 * 1)%Q
              ltac:(vm_compute; reflexivity) ltac:(vm_compute; reflexivity)) as [s [Hn _]].
  vm_compute in Hn. discriminate.
Qed.

(** C5 (amended): when the [export_power] key is absent from the raw map,
    [normalize] produces a sample with [export_power_w = -g] if
    [grid_power] extracts to [g] and the registers of the six other fields
    extract; if [grid_power] is absent or fails extraction, it returns
    [None]. *)
Theorem export_fallback_to_negated_grid :
  forall (raw : Normalizer.RawMap) dev ts,
    raw !! "export_power" = None ->
    (forall g a b c d e f,
       Normalizer.extract_named "grid_power" raw = Some g ->
       Normalizer.extract_named "total_dc_power" raw = Some a ->
       Normalizer.extract_named "daily_pv_generation" raw = Some b ->
       Normalizer.extract_named "battery_power" raw = Some c ->
       Normalizer.extract_named "battery_soc" raw = Some d ->
       Normalizer.extract_named "battery_temperature" raw = Some e ->
       Normalizer.extract_named "load_power" raw = Some f ->
       Normalizer.normalize raw dev ts =
         Ret (Some (Normalizer.mkSungrowSample dev ts a b c d e f (- g)%Q))) /\
    (Normalizer.extract_named "grid_power" raw = None ->
       Normalizer.normalize raw dev ts = Ret None).
Proof.
  intros raw dev ts Habs.
  rewrite NormalizerFacts.normalize_spec, (NormalizerFacts.field_value_export_absent raw Habs).
  rewrite !NormalizerFacts.field_value_other by reflexivity.
  split.
  - intros g a b c d e f Hg Ha Hb Hc Hd He Hf.
    rewrite Hg, Ha, Hb, Hc, Hd, He, Hf. reflexivity.
  - intros Hg. rewrite Hg.
    repeat (match goal with |- context [Normalizer.extract_named ?n raw] =>
              destruct (Normalizer.extract_named n raw) end); reflexivity.
Qed.

Definition demo_raw : Normalizer.RawMap :=
  list_to_map [("total_dc_power", [0; 1500]); ("daily_pv_generation", [123]);
               ("battery_power", [65036]); ("battery_soc", [800]);
               ("battery_temperature", [250]); ("load_power", [0; 900]);
               ("export_power", [0; 600]); ("grid_power", [65436])].

Definition demo_raw_no_export : Normalizer.RawMap := delete "export_power" demo_raw.

Lemma export_fallback_to_negated_grid_witness :
  Normalizer.normalize demo_raw_no_export "inv-1" 1700000000 =
    Ret (Some (Normalizer.mkSungrowSample "inv-1" 1700000000
                 (inject_Z 1500 * 1) (inject_Z 123 * (1#10)) (inject_Z (-500) * 1)
                 (inject_Z 800 * (1#10)) (inject_Z 250 * (1#10)) (inject_Z 900 * 1)
                 (- (inject_Z (-100) * 1)))%Q).
Proof.
  apply (proj1 (export_fallback_to_negated_grid demo_raw_no_export
                  "inv-1" 1700000000 ltac:(vm_compute; reflexivity)));
    vm_compute; reflexivity.
Defined.

(** C10: if the [daily_pv_generation] or the [battery_temperature] key is
    absent from the raw map or fails extraction, [normalize] returns
    [None]; a sample it returns always carries the extracted values of
    both as [pv_daily_kwh] and [battery_temp_c], which are plain (never
    null) fields of the edge sample. *)
Theorem required_daily_pv_and_battery_temp :
  (forall (raw : Normalizer.RawMap) dev ts,
     raw !! "daily_pv_generation" = None \/
     Normalizer.extract_named "daily_pv_generation" raw = None \/
     raw !! "battery_temperature" = None \/
     Normalizer.extract_named "battery_temperature" raw = None ->
     Normalizer.normalize raw dev ts = Ret None) /\
  (forall (raw : Normalizer.RawMap) dev ts s,
     Normalizer.normalize raw dev ts = Ret (Some s) ->
     Normalizer.extract_named "daily_pv_generation" raw = Some (Normalizer.pv_daily_kwh s) /\
     Normalizer.extract_named "battery_temperature" raw = Some (Normalizer.battery_temp_c s)).
Proof.
  split.
  - intros raw dev ts Hnone.
    assert (Hpv : Normalizer.extract_named "daily_pv_generation" raw = None \/
                  Normalizer.extract_named "battery_temperature" raw = None).
    { destruct Hnone as [H | [H | [H | H]]].
      - left. apply NormalizerFacts.extract_named_absent; [vm_compute; reflexivity | exact H].
      - left. exact H.
      - right. apply NormalizerFacts.extract_named_absent; [vm_compute; reflexivity | exact H].
      - right. exact H. }
    rewrite NormalizerFacts.normalize_spec.
    rewrite (NormalizerFacts.field_value_other raw "pv_daily_kwh") by reflexivity.
    rewrite (NormalizerFacts.field_value_other raw "battery_temp_c") by reflexivity.
    destruct Hpv as [H | H]; rewrite H;
      repeat (match goal with |- context [Normalizer.field_value raw ?f ?r] =>
                destruct (Normalizer.field_value raw f r) end);
      try (match goal with |- context [Normalizer.extract_named ?n raw] =>
             destruct (Normalizer.extract_named n raw) end);
      reflexivity.
  - intros raw dev ts s Hs.
    rewrite NormalizerFacts.normalize_spec in Hs.
    rewrite (NormalizerFacts.field_value_other raw "pv_daily_kwh") in Hs by reflexivity.
    rewrite (NormalizerFacts.field_value_other raw "battery_temp_c") in Hs by reflexivity.
    destruct (Normalizer.extract_named "daily_pv_generation" raw);
      destruct (Normalizer.extract_named "battery_temperature" raw);
      repeat (match type of Hs with context [Normalizer.field_value raw ?f ?r] =>
                destruct (Normalizer.field_value raw f r) end);
      try discriminate.
    injection Hs as <-. split; reflexivity.
Qed.

Definition demo_raw_hot_battery : Normalizer.RawMap :=
  <[ "battery_temperature" := [700] ]> demo_raw.

Lemma required_daily_pv_and_battery_temp_witness :
  Normalizer.normalize demo_raw_hot_battery "inv-1" 0 = Ret None /\
  Normalizer.extract_named "daily_pv_generation" demo_raw =
    Some (inject_Z 123 * (1#10))%Q.
Proof.
  split.
  - apply (proj1 required_daily_pv_and_battery_temp).
    right. right. right. vm_compute. reflexivity.
  - exact (proj1 (proj2 required_daily_pv_and_battery_temp demo_raw "inv-1" 0
                    (Normalizer.mkSungrowSample "inv-1" 0
                       (inject_Z 1500 * 1) (inject_Z 123 * (1#10)) (inject_Z (-500) * 1)
                       (inject_Z 800 * (1#10)) (inject_Z 250 * (1#10)) (inject_Z 900 * 1)
                       (inject_Z 600 * 1))%Q
                    ltac:(vm_compute; reflexivity))).
Defined.



Module NormalizerFacts2.
Import Registers Normalizer.

Lemma land_65535 (x : Z) : Z.land x 65535 = x mod 65536.
Proof. change 65535 with (Z.ones 16). rewrite Z.land_ones by lia. reflexivity. Qed.

Lemma lor_shiftl_16 (a b : Z) :
  0 <= a -> 0 <= b < 65536 -> Z.lor (Z.shiftl a 16) b = a * 65536 + b.
Proof.
  intros Ha Hb.
  assert (Hdisj : Z.land (Z.shiftl a 16) b = 0).
  { apply Z.bits_inj'. intros n Hn. rewrite Z.land_spec, Z.bits_0.
    destruct (Z.lt_ge_cases n 16) as [Hlt | Hge].
    - rewrite Z.shiftl_spec by lia. rewrite Z.testbit_neg_r by lia. reflexivity.
    - rewrite (Z.bits_above_log2 b n); [rewrite andb_false_r; reflexivity | lia |].
      destruct (Z.eq_dec b 0) as [-> | Hb0]; [simpl; lia |].
      assert (Z.log2 b < 16) by (apply Z.log2_lt_pow2; lia). lia. }
  rewrite <- Z.lxor_lor by exact Hdisj.
  rewrite <- Z.add_nocarry_lxor by exact Hdisj.
  rewrite Z.shiftl_mul_pow2 by lia. reflexivity.
Qed.

Lemma convert_s16_arith (raw : Z) :
  _convert_s16 raw = if 32768 <=? raw mod 65536 then raw mod 65536 - 65536 else raw mod 65536.
Proof. unfold _convert_s16. rewrite land_65535. reflexivity. Qed.

Lemma convert_u32_arith (hi lo : Z) :
  _convert_u32 hi lo = hi mod 65536 * 65536 + lo mod 65536.
Proof.
  unfold _convert_u32. rewrite !land_65535.
  apply lor_shiftl_16; [apply Z.mod_pos_bound; lia | apply Z.mod_pos_bound; lia].
Qed.

Lemma in_range_true (lo hi x : Q) :
  in_range lo hi x = true -> (lo <= x <= hi)%Q.
Proof.
  unfold in_range. intros H. apply andb_prop in H as [H1 H2].
  split; apply Qle_bool_iff; assumption.
Qed.

Lemma extract_value_in_range (reg_def : RegisterDef) (raw : RawMap) (lo hi v : Q) :
  valid_range reg_def = Some (lo, hi) ->
  _extract_value reg_def raw = Some v -> (lo <= v <= hi)%Q.
Proof.
  intros Hr H. unfold _extract_value in H. rewrite Hr in H.
  destruct (raw !! name reg_def) as [ws |]; [| discriminate].
  repeat (match type of H with
          | context [match ?x with _ => _ end] => destruct x eqn:?
          | context [if ?x then _ else _] => destruct x eqn:?
          end; try discriminate);
  injection H as <-; apply in_range_true; assumption.
Qed.

Lemma extract_named_in_range (n : string) (raw : RawMap) (v lo hi : Q) :
  option_map valid_range (ALL_REGISTERS !! n) = Some (Some (lo, hi)) ->
  extract_named n raw = Some v -> (lo <= v <= hi)%Q.
Proof.
  intros Hr H. unfold extract_named in H.
  destruct (ALL_REGISTERS !! n) as [rd |]; [| discriminate].
  injection Hr as Hr. exact (extract_value_in_range rd raw lo hi v Hr H).
Qed.

Lemma all_registers_name : map_Forall (fun k r => name r = k) ALL_REGISTERS.
Proof. apply (bool_decide_unpack _). vm_compute. exact I. Qed.

Lemma extract_value_ext (rd : RegisterDef) (raw1 raw2 : RawMap) :
  raw1 !! name rd = raw2 !! name rd ->
  _extract_value rd raw1 = _extract_value rd raw2.
Proof. intros H. unfold _extract_value. rewrite H. reflexivity. Qed.

Lemma extract_named_ext (n : string) (raw1 raw2 : RawMap) :
  raw1 !! n = raw2 !! n -> extract_named n raw1 = extract_named n raw2.
Proof.
  intros H. unfold extract_named.
  destruct (ALL_REGISTERS !! n) as [rd |] eqn:E; [| reflexivity].
  apply extract_value_ext. rewrite (all_registers_name n rd E). exact H.
Qed.

Lemma field_value_ext (f r : string) (raw1 raw2 : RawMap) :
  raw1 !! r = raw2 !! r -> raw1 !! "grid_power" = raw2 !! "grid_power" ->
  field_value raw1 f r = field_value raw2 f r.
Proof.
  intros Hr Hg. unfold field_value.
  destruct (ALL_REGISTERS !! r) as [rd |] eqn:E; [| reflexivity].
  assert (Hrd : _extract_value rd raw1 = _extract_value rd raw2).
  { apply extract_value_ext. rewrite (all_registers_name r rd E). exact Hr. }
  rewrite Hr, Hrd, (extract_named_ext "grid_power" raw1 raw2 Hg). reflexivity.
Qed.

Lemma field_value_export_present (raw : RawMap) :
  is_Some (raw !! "export_power") ->
  field_value raw "export_power_w" "export_power" = extract_named "export_power" raw.
Proof.
  intros Hp. unfold field_value, extract_named. rewrite NormalizerFacts.lookup_export_power.
  rewrite (bool_decide_eq_true_2 _ Hp). reflexivity.
Qed.

End NormalizerFacts2.

(** S16 decoding: the result is a signed 16-bit value, only the low 16 bits
    of the word matter, and a signed 16-bit value written as an unsigned
    word (two's complement) decodes back to itself. *)
Theorem convert_s16_range_roundtrip :
  (forall raw, -32768 <= Normalizer._convert_s16 raw <= 32767) /\
  (forall raw, Normalizer._convert_s16 raw = Normalizer._convert_s16 (raw mod 65536)) /\
  (forall v, -32768 <= v <= 32767 -> Normalizer._convert_s16 (v mod 65536) = v).
Proof.
  split; [| split].
  - intros raw. rewrite NormalizerFacts2.convert_s16_arith.
    destruct (Z.leb_spec 32768 (raw mod 65536)); Z.div_mod_to_equations; lia.
  - intros raw. rewrite !NormalizerFacts2.convert_s16_arith, Zmod_mod. reflexivity.
  - intros v Hv. rewrite NormalizerFacts2.convert_s16_arith, Zmod_mod.
    destruct (Z.leb_spec 32768 (v mod 65536)); Z.div_mod_to_equations; lia.
Qed.

(** U32/S32 decoding: splitting a 32-bit value into its high and low
    16-bit words (high word first) and assembling them gives the value
    back, unsigned and two's complement alike; the results stay in the
    unsigned and signed 32-bit ranges. *)
Theorem convert_32_roundtrip :
  (forall v, 0 <= v < 2 ^ 32 ->
     Normalizer._convert_u32 (v / 65536) (v mod 65536) = v) /\
  (forall v, - 2 ^ 31 <= v < 2 ^ 31 ->
     Normalizer._convert_s32 ((v / 65536) mod 65536) (v mod 65536) = v) /\
  (forall hi lo, 0 <= Normalizer._convert_u32 hi lo < 2 ^ 32) /\
  (forall hi lo, - 2 ^ 31 <= Normalizer._convert_s32 hi lo < 2 ^ 31).
Proof.
  assert (Hs32 : forall hi lo, Normalizer._convert_s32 hi lo =
            let val := hi mod 65536 * 65536 + lo mod 65536 in
            if 2147483648 <=? val then val - 4294967296 else val).
  { intros hi lo. unfold Normalizer._convert_s32. rewrite !NormalizerFacts2.land_65535.
    rewrite NormalizerFacts2.lor_shiftl_16 by (apply Z.mod_pos_bound; lia). reflexivity. }
  split; [| split; [| split]].
  - intros v Hv. rewrite NormalizerFacts2.convert_u32_arith. Z.div_mod_to_equations; lia.
  - intros v Hv. rewrite Hs32. cbv zeta.
    destruct (Z.leb_spec 2147483648 (v / 65536 mod 65536 mod 65536 * 65536 + v mod 65536 mod 65536)); Z.div_mod_to_equations; lia.
  - intros hi lo. rewrite NormalizerFacts2.convert_u32_arith. Z.div_mod_to_equations; lia.
  - intros hi lo. rewrite Hs32. cbv zeta.
    destruct (Z.leb_spec 2147483648 (hi mod 65536 * 65536 + lo mod 65536)); Z.div_mod_to_equations; lia.
Qed.

(** [_extract_value] never returns a value outside the register's
    [valid_range] (the S32 low-word fallback included); it returns [None]
    when the register's key is missing, when a 32-bit register has fewer
    than two words or a 16-bit register has none, and for UTF8
    registers. *)
Theorem extract_value_bounds_and_failures :
  forall (reg_def : Registers.RegisterDef) (raw : Normalizer.RawMap),
    (forall lo hi v, Registers.valid_range reg_def = Some (lo, hi) ->
       Normalizer._extract_value reg_def raw = Some v -> (lo <= v <= hi)%Q) /\
    (raw !! Registers.name reg_def = None -> Normalizer._extract_value reg_def raw = None) /\
    (forall ws, raw !! Registers.name reg_def = Some ws ->
       ((Registers.reg_type reg_def = Registers.U32 \/ Registers.reg_type reg_def = Registers.S32) ->
          (length ws < 2)%nat -> Normalizer._extract_value reg_def raw = None) /\
       ((Registers.reg_type reg_def = Registers.U16 \/ Registers.reg_type reg_def = Registers.S16) ->
          ws = [] -> Normalizer._extract_value reg_def raw = None)) /\
    (Registers.reg_type reg_def = Registers.UTF8 -> Normalizer._extract_value reg_def raw = None).
Proof.
  intros reg_def raw. split; [| split; [| split]].
  - intros lo hi v. apply NormalizerFacts2.extract_value_in_range.
  - intros H. unfold Normalizer._extract_value. rewrite H. reflexivity.
  - intros ws Hws. unfold Normalizer._extract_value. rewrite Hws. split.
    + intros Ht Hlen. destruct ws as [| w0 [| w1 ws]]; [| | simpl in Hlen; lia];
        destruct Ht as [-> | ->]; reflexivity.
    + intros Ht ->. destruct Ht as [-> | ->]; reflexivity.
  - intros Ht. unfold Normalizer._extract_value.
    destruct (raw !! Registers.name reg_def); [| reflexivity]. rewrite Ht. reflexivity.
Qed.

(** Every sample [normalize] returns has each field inside the valid
    range of the register it comes from; [export_power_w] is inside the
    export register's range also when it is computed as [-grid_power]. *)
Theorem normalize_fields_in_range :
  forall (raw : Normalizer.RawMap) dev ts s,
    Normalizer.normalize raw dev ts = Ret (Some s) ->
    (0 <= Normalizer.pv_power_w s <= 20000)%Q /\
    (0 <= Normalizer.pv_daily_kwh s <= 100)%Q /\
    (-10000 <= Normalizer.battery_power_w s <= 10000)%Q /\
    (0 <= Normalizer.battery_soc_pct s <= 100)%Q /\
    (-20 <= Normalizer.battery_temp_c s <= 60)%Q /\
    (-20000 <= Normalizer.load_power_w s <= 50000)%Q /\
    (-20000 <= Normalizer.export_power_w s <= 20000)%Q.
Proof.
  intros raw dev ts s Hs.
  rewrite NormalizerFacts.normalize_spec in Hs.
  assert (Hexp : forall v, Normalizer.field_value raw "export_power_w" "export_power" = Some v ->
                   (-20000 <= v <= 20000)%Q).
  { intros v Hv. destruct (raw !! "export_power") as [ws |] eqn:E.
    - rewrite NormalizerFacts2.field_value_export_present in Hv by (rewrite E; eexists; reflexivity).
      apply (NormalizerFacts2.extract_named_in_range "export_power" raw); [vm_compute; reflexivity | exact Hv].
    - rewrite NormalizerFacts.field_value_export_absent in Hv by exact E.
      destruct (Normalizer.extract_named "grid_power" raw) as [g |] eqn:Eg; [| discriminate].
      injection Hv as <-.
      pose proof (NormalizerFacts2.extract_named_in_range "grid_power" raw g (-20000) 20000
                    ltac:(vm_compute; reflexivity) Eg) as [H1 H2].
      split.
      + apply Qopp_le_compat in H2. exact H2.
      + apply Qopp_le_compat in H1. exact H1. }
  rewrite !NormalizerFacts.field_value_other in Hs by reflexivity.
  destruct (Normalizer.field_value raw "export_power_w" "export_power") as [e |] eqn:Ee;
    [| repeat (match type of Hs with context [Normalizer.extract_named ?n raw] =>
                 destruct (Normalizer.extract_named n raw) end); discriminate].
  repeat (match type of Hs with context [Normalizer.extract_named ?n raw] =>
            let E := fresh "E" in destruct (Normalizer.extract_named n raw) eqn:E end);
    try discriminate.
  injection Hs as <-. cbn.
  refine (conj _ (conj _ (conj _ (conj _ (conj _ (conj _ _))))));
    try (eapply NormalizerFacts2.extract_named_in_range; [| eassumption]; vm_compute; reflexivity);
    apply (Hexp e eq_refl).
Qed.

(** [normalize] reads only the eight registers it maps: two raw maps that
    agree on them give the same result, whatever else they contain. *)
Theorem normalize_reads_only_mapped_registers :
  forall (raw1 raw2 : Normalizer.RawMap) dev ts,
    (forall n, n ∈ ["total_dc_power"; "daily_pv_generation"; "battery_power";
                    "battery_soc"; "battery_temperature"; "load_power";
                    "export_power"; "grid_power"] -> raw1 !! n = raw2 !! n) ->
    Normalizer.normalize raw1 dev ts = Normalizer.normalize raw2 dev ts.
Proof.
  intros raw1 raw2 dev ts Hagree.
  assert (Hg : raw1 !! "grid_power" = raw2 !! "grid_power")
    by (apply Hagree; repeat (first [left; reflexivity | right])).
  rewrite !NormalizerFacts.normalize_spec.
  repeat (rewrite (NormalizerFacts2.field_value_ext _ _ raw1 raw2);
          [| apply Hagree; repeat (first [left; reflexivity | right]) | exact Hg]).
  reflexivity.
Qed.

(** When the [export_power] key is present, [grid_power] is not used:
    a sample's [export_power_w] is the extracted export value, and if
    that extraction fails [normalize] returns [None] even when
    [grid_power] is valid. *)
Theorem export_present_no_grid_fallback :
  forall (raw : Normalizer.RawMap) dev ts,
    is_Some (raw !! "export_power") ->
    (Normalizer.extract_named "export_power" raw = None ->
       Normalizer.normalize raw dev ts = Ret None) /\
    (forall s, Normalizer.normalize raw dev ts = Ret (Some s) ->
       Normalizer.extract_named "export_power" raw = Some (Normalizer.export_power_w s)).
Proof.
  intros raw dev ts Hp.
  rewrite NormalizerFacts.normalize_spec, (NormalizerFacts2.field_value_export_present raw Hp).
  split.
  - intros ->.
    repeat (match goal with |- context [Normalizer.field_value raw ?f ?r] =>
              destruct (Normalizer.field_value raw f r) end); reflexivity.
  - intros s Hs.
    destruct (Normalizer.extract_named "export_power" raw);
      repeat (match type of Hs with context [Normalizer.field_value raw ?f ?r] =>
                destruct (Normalizer.field_value raw f r) end);
      try discriminate.
    injection Hs as <-. reflexivity.
Qed.


Module PollerFacts2.
Import Registers Poller.

(** The full read schedule of [_do_poll]: each group in order, preceded
    by the inter-register sleep except for the first. *)
Fixpoint schedule (delay : Z) (idx : nat) (groups : list RegisterGroup) : list action :=
  match groups with
  | [] => []
  | g :: gs =>
      (if (0 <? idx)%nat && (0 <? delay) then [SleepMs delay] else [])
        ++ ReadGroup g :: schedule delay (S idx) gs
  end.

Lemma poll_groups_prefix (read : RegisterGroup -> read_response) (delay : Z)
    (groups : list RegisterGroup) :
  forall idx acc, fst (poll_groups read delay idx groups acc) `prefix_of` schedule delay idx groups.
Proof.
  induction groups as [| g gs IH]; intros idx acc; simpl; [apply prefix_nil |].
  destruct (read g) as [regs | code |].
  - specialize (IH (S idx) (_extract_register_values g regs acc)).
    destruct (poll_groups read delay (S idx) gs _) as [t r]. simpl in *.
    apply prefix_app, prefix_cons, IH.
  - destruct (String.eqb (group_name g) "export").
    + specialize (IH (S idx) acc).
      destruct (poll_groups read delay (S idx) gs acc) as [t r]. simpl in *.
      apply prefix_app, prefix_cons, IH.
    + simpl. apply prefix_app, prefix_cons, prefix_nil.
  - simpl. apply prefix_app, prefix_cons, prefix_nil.
Qed.

(** With every group answering, the cycle's result is the groups' slices
    added one group after the other. *)
Lemma poll_groups_all_ok (read : RegisterGroup -> read_response) (delay : Z)
    (words : RegisterGroup -> list Z) (groups : list RegisterGroup) :
  Forall (fun g => read g = RespOk (words g)) groups ->
  forall idx acc,
    snd (poll_groups read delay idx groups acc) =
      Ret (Some (foldl (fun m g => _extract_register_values g (words g) m) acc groups)).
Proof.
  induction 1 as [| g gs Hg Hgs IH]; intros idx acc; simpl; [reflexivity |].
  rewrite Hg. specialize (IH (S idx) (_extract_register_values g (words g) acc)).
  destruct (poll_groups read delay (S idx) gs _) as [t r]. exact IH.
Qed.

Lemma foldl_insert_notin {A} (f : RegisterDef -> A) (regs : list RegisterDef) :
  forall (acc : gmap string A) k, k ∉ map name regs ->
    foldl (fun m r => <[name r := f r]> m) acc regs !! k = acc !! k.
Proof.
  induction regs as [| r0 rs IH]; intros acc k Hk; simpl; [reflexivity |].
  rewrite IH.
  - apply lookup_insert_ne. intros Heq. subst k. apply Hk. simpl. apply elem_of_cons. left. reflexivity.
  - intros Hin. apply Hk. simpl. apply elem_of_cons. right. exact Hin.
Qed.

Lemma foldl_insert_lookup {A} (f : RegisterDef -> A) (regs : list RegisterDef) :
  forall (acc : gmap string A) r,
    NoDup (map name regs) -> r ∈ regs ->
    foldl (fun m r => <[name r := f r]> m) acc regs !! name r = Some (f r).
Proof.
  induction regs as [| r0 rs IH]; intros acc r Hnd Hr; [apply elem_of_nil in Hr; contradiction |].
  simpl in *. apply NoDup_cons in Hnd as [Hn0 Hnd].
  apply elem_of_cons in Hr as [-> | Hr].
  - rewrite foldl_insert_notin by exact Hn0. apply lookup_insert_eq.
  - apply IH; assumption.
Qed.

Definition slice (g : RegisterGroup) (words : list Z) (r : RegisterDef) : list Z :=
  take (Z.to_nat (word_count r)) (drop (Z.to_nat (address r - start_address g)) words).

Lemma extract_as_foldl (g : RegisterGroup) (words : list Z) acc :
  _extract_register_values g words acc =
    foldl (fun m r => <[name r := slice g words r]> m) acc (registers g).
Proof. reflexivity. Qed.

Lemma groups_foldl_lookup (words : RegisterGroup -> list Z) (gs : list RegisterGroup) :
  forall acc g r,
    NoDup (concat (map (fun g => map name (registers g)) gs)) ->
    g ∈ gs -> r ∈ registers g ->
    foldl (fun m g => _extract_register_values g (words g) m) acc gs !! name r =
      Some (slice g (words g) r).
Proof.
  induction gs as [| g0 gs IH]; intros acc g r Hnd Hg Hr; [apply elem_of_nil in Hg; contradiction |].
  simpl in *. apply NoDup_app in Hnd as [Hnd0 [Hdisj Hnd]].
  apply elem_of_cons in Hg as [-> | Hg].
  - assert (Hout : forall gs', name r ∉ concat (map (fun g => map name (registers g)) gs') ->
              forall acc', foldl (fun m g => _extract_register_values g (words g) m) acc' gs' !! name r
                           = acc' !! name r).
    { induction gs' as [| g1 gs' IH']; intros Hn acc'; simpl; [reflexivity |].
      simpl in Hn. rewrite IH'.
      - rewrite extract_as_foldl. apply foldl_insert_notin.
        intros Hin. apply Hn. apply elem_of_app. left. exact Hin.
      - intros Hin. apply Hn. apply elem_of_app. right. exact Hin. }
    rewrite Hout.
    + rewrite extract_as_foldl. apply foldl_insert_lookup; assumption.
    + apply Hdisj. apply list_elem_of_fmap. exists r. split; [reflexivity | exact Hr].
  - apply IH; assumption.
Qed.

Lemma catalog_names_distinct :
  NoDup (concat (map (fun g => map name (registers g)) ALL_GROUPS)).
Proof. apply (bool_decide_unpack _). vm_compute. exact I. Qed.

Lemma catalog_layout :
  Forall (fun g => Forall (fun r =>
      0 <= address r - start_address g /\
      (Z.to_nat (address r - start_address g) + Z.to_nat (word_count r) <= Z.to_nat (count g))%nat)
    (registers g)) ALL_GROUPS.
Proof. apply (bool_decide_unpack _). vm_compute. exact I. Qed.

End PollerFacts2.

(** A poll cycle reads the groups in catalog order, each at most once,
    never sleeps before the first read, and sleeps exactly the
    inter-register delay between two consecutive reads when that delay is
    positive (never when it is 0 or negative): whatever the device
    answers, the cycle's actions are a prefix of this schedule. *)
Theorem poll_cycle_follows_schedule :
  forall conn (read : Registers.RegisterGroup -> Poller.read_response) (delay : Z),
    fst (Poller._do_poll conn read delay) `prefix_of`
      (if 0 <? delay then
         [Poller.ReadGroup Registers.DEVICE_GROUP; Poller.SleepMs delay;
          Poller.ReadGroup Registers.PV_GROUP; Poller.SleepMs delay;
          Poller.ReadGroup Registers.EXPORT_GROUP; Poller.SleepMs delay;
          Poller.ReadGroup Registers.LOAD_GROUP; Poller.SleepMs delay;
          Poller.ReadGroup Registers.BATTERY_GROUP]
       else
         [Poller.ReadGroup Registers.DEVICE_GROUP; Poller.ReadGroup Registers.PV_GROUP;
          Poller.ReadGroup Registers.EXPORT_GROUP; Poller.ReadGroup Registers.LOAD_GROUP;
          Poller.ReadGroup Registers.BATTERY_GROUP]).
Proof.
  intros conn read delay.
  assert (Hs : PollerFacts2.schedule delay 0 Registers.ALL_GROUPS =
      (if 0 <? delay then
         [Poller.ReadGroup Registers.DEVICE_GROUP; Poller.SleepMs delay;
          Poller.ReadGroup Registers.PV_GROUP; Poller.SleepMs delay;
          Poller.ReadGroup Registers.EXPORT_GROUP; Poller.SleepMs delay;
          Poller.ReadGroup Registers.LOAD_GROUP; Poller.SleepMs delay;
          Poller.ReadGroup Registers.BATTERY_GROUP]
       else
         [Poller.ReadGroup Registers.DEVICE_GROUP; Poller.ReadGroup Registers.PV_GROUP;
          Poller.ReadGroup Registers.EXPORT_GROUP; Poller.ReadGroup Registers.LOAD_GROUP;
          Poller.ReadGroup Registers.BATTERY_GROUP])).
  { unfold Registers.ALL_GROUPS. cbn [PollerFacts2.schedule].
    destruct (0 <? delay); reflexivity. }
  rewrite <- Hs. unfold Poller._do_poll, Poller.do_poll_groups.
  destruct conn; [apply PollerFacts2.poll_groups_prefix | apply prefix_nil | apply prefix_nil].
Qed.

(** When every group answers with as many words as the group's [count],
    the cycle succeeds and maps every catalog register to its own slice
    of its group's response, [word_count] words long: the group layouts
    fit inside their reads and no register name is used twice. *)
Theorem full_poll_slices_every_register :
  forall (read : Registers.RegisterGroup -> Poller.read_response) (delay : Z)
         (words : Registers.RegisterGroup -> list Z),
    (forall g, g ∈ Registers.ALL_GROUPS ->
       read g = Poller.RespOk (words g) /\ length (words g) = Z.to_nat (Registers.count g)) ->
    exists m, snd (Poller._do_poll Poller.ConnOk read delay) = Ret (Some m) /\
      forall g r, g ∈ Registers.ALL_GROUPS -> r ∈ Registers.registers g ->
        m !! Registers.name r =
          Some (take (Z.to_nat (Registers.word_count r))
                  (drop (Z.to_nat (Registers.address r - Registers.start_address g)) (words g))) /\
        length (take (Z.to_nat (Registers.word_count r))
                  (drop (Z.to_nat (Registers.address r - Registers.start_address g)) (words g)))
          = Z.to_nat (Registers.word_count r).
Proof.
  intros read delay words Hok.
  eexists. split.
  - unfold Poller._do_poll, Poller.do_poll_groups.
    apply (PollerFacts2.poll_groups_all_ok read delay words).
    apply Forall_forall. intros g Hg. apply (Hok g Hg).
  - intros g r Hg Hr. split.
    + apply PollerFacts2.groups_foldl_lookup; [apply PollerFacts2.catalog_names_distinct | exact Hg | exact Hr].
    + pose proof PollerFacts2.catalog_layout as Hl.
      rewrite Forall_forall in Hl. specialize (Hl g Hg). rewrite Forall_forall in Hl.
      specialize (Hl r Hr) as [_ Hle].
      destruct (Hok g Hg) as [_ Hlen].
      rewrite length_take, length_drop. lia.
Qed.


Module SpoolFacts2.
Import Spool SpoolFacts.

Definition rowid_lt (a b : Z * string) : Prop := fst a < fst b.

(** Reachable files: rowids at most the sequence, rows in strictly
    increasing rowid order. *)
Definition good (f : SpoolFile) : Prop :=
  seq_inv f /\ StronglySorted rowid_lt (rows f).

Lemma sorted_filter (P : Z * string -> Prop) `{!forall x, Decision (P x)} (l : list (Z * string)) :
  StronglySorted rowid_lt l -> StronglySorted rowid_lt (filter P l).
Proof.
  induction l as [| x l IH]; intros Hs; [constructor |].
  apply StronglySorted_inv in Hs as [Hs Hx].
  rewrite filter_cons. destruct (decide (P x)).
  - constructor; [apply IH, Hs |].
    rewrite Forall_forall in Hx |- *. intros y Hy.
    apply list_elem_of_filter in Hy. apply Hx, Hy.
  - apply IH, Hs.
Qed.

Lemma enqueue_good (s s' : Spool) (p : string) (rid : Z) :
  good (file s) -> enqueue s p = Ret (s', rid) ->
  good (file s') /\ rows (file s') = rows (file s) ++ [(rid, p)] /\
  rid = sqlite_seq (file s) + 1 /\ opened s' = true.
Proof.
  intros [Hinv Hs] He.
  destruct (enqueue_spec s p s' rid Hinv He) as (Hrid & Hseq & Hinv').
  unfold enqueue in He. destruct (opened s); [| discriminate].
  destruct (autoincrement_next (file s)) as [r |]; [| discriminate]. simpl in He.
  injection He as <- <-. simpl in *.
  split; [split; [exact Hinv' |] | split; [reflexivity | split; [exact Hrid | reflexivity]]].
  apply StronglySorted_app_2; [| exact Hs | repeat constructor].
  intros x y Hx Hy. apply list_elem_of_singleton in Hy. subst y.
  destruct Hinv as [_ Hall]. rewrite Forall_forall in Hall.
  unfold rowid_lt. simpl. specialize (Hall x Hx). lia.
Qed.

Lemma ack_good (s s' : Spool) (l : list Z) :
  good (file s) -> ack s l = Ret s' -> good (file s').
Proof.
  intros [Hinv Hs] Ha. split; [exact (proj2 (ack_spec s s' l Hinv Ha)) |].
  unfold ack in Ha. destruct (opened s); [| discriminate].
  destruct l as [| x xs]; injection Ha as <-; [exact Hs |].
  apply sorted_filter. exact Hs.
Qed.

Lemma run_good (ops : list op) :
  forall s, good (file s) -> good (file (fst (run s ops))).
Proof.
  induction ops as [| o ops IH]; intros s Hg; simpl; [exact Hg |].
  destruct o as [p | n | l | | |].
  - destruct (enqueue s p) as [[s1 rid] |] eqn:He.
    + pose proof (enqueue_good s s1 p rid Hg He) as [Hg1 _].
      specialize (IH s1 Hg1). destruct (run s1 ops) as [s2 a]. exact IH.
    + apply IH, Hg.
  - apply IH, Hg.
  - destruct (ack s l) as [s1 |] eqn:Ha; [apply IH; exact (ack_good s s1 l Hg Ha) | apply IH, Hg].
  - apply IH, Hg.
  - apply (IH (close s)), Hg.
  - apply (IH (open_ s)), Hg.
Qed.

Lemma fresh_good : good (file fresh).
Proof. split; [exact fresh_inv | constructor]. Qed.

Lemma reachable_good (ops : list op) : good (file (fst (run fresh ops))).
Proof. apply run_good, fresh_good. Qed.

(** Enqueueing a list of payloads on an opened, reachable spool appends
    them in order with consecutive rowids after the sequence. *)
Lemma run_enqueues (ps : list string) :
  forall s, good (file s) -> opened s = true ->
    sqlite_seq (file s) + Z.of_nat (length ps) <= MAX_ROWID ->
    run s (map OpEnqueue ps) =
      (mkSpool (mkSpoolFile
                  (rows (file s) ++ zip (seqZ (sqlite_seq (file s) + 1) (Z.of_nat (length ps))) ps)
                  (sqlite_seq (file s) + Z.of_nat (length ps))) true,
       seqZ (sqlite_seq (file s) + 1) (Z.of_nat (length ps))).
Proof.
  induction ps as [| p ps IH]; intros s Hg Ho Hmax; simpl in *.
  - rewrite app_nil_r, Z.add_0_r. destruct s as [[rs q] o]. simpl in *. subst o. reflexivity.
  - assert (He : enqueue s p =
        Ret (mkSpool (mkSpoolFile (rows (file s) ++ [(sqlite_seq (file s) + 1, p)])
                                  (sqlite_seq (file s) + 1)) true, sqlite_seq (file s) + 1)).
    { unfold enqueue, autoincrement_next. rewrite Ho. simpl.
      destruct Hg as [[Hq Hall] _].
      rewrite Z.max_l by (apply max_rowid_le; assumption).
      destruct (Z.ltb_spec (sqlite_seq (file s)) MAX_ROWID); [reflexivity | lia]. }
    rewrite He.
    pose proof (enqueue_good s _ p _ Hg He) as [Hg1 _].
    rewrite (IH _ Hg1 eq_refl) by (simpl; lia). simpl.
    rewrite (seqZ_cons (sqlite_seq (file s) + 1) (Z.of_nat (S (length ps)))) by lia.
    replace (Z.pred (Z.of_nat (S (length ps)))) with (Z.of_nat (length ps)) by lia.
    replace (Z.succ (sqlite_seq (file s) + 1)) with (sqlite_seq (file s) + 1 + 1) by lia.
    rewrite <- app_assoc. simpl.
    replace (sqlite_seq (file s) + 1 + Z.of_nat (length ps))
      with (sqlite_seq (file s) + Z.of_nat (S (length ps))) by lia.
    reflexivity.
Qed.

(** [ack] on an opened spool, in closed form. *)
Lemma ack_opened (s : Spool) (ids : list Z) :
  opened s = true ->
  ack s ids = Ret (mkSpool (mkSpoolFile (filter (fun r => fst r ∉ ids) (rows (file s)))
                                        (sqlite_seq (file s))) true).
Proof.
  intros Ho. unfold ack. rewrite Ho. simpl.
  destruct ids as [| i is].
  - destruct s as [[rs q] o]. simpl in *. subst o. do 3 f_equal.
    symmetry. induction rs as [| x l IH]; [reflexivity |].
    rewrite filter_cons_True by apply not_elem_of_nil. rewrite IH. reflexivity.
  - reflexivity.
Qed.

Lemma filter_none (P : Z * string -> Prop) `{!forall x, Decision (P x)} (l : list (Z * string)) :
  (forall x, x ∈ l -> ~ P x) -> filter P l = [].
Proof.
  induction l as [| x l IH]; intros Hn; [reflexivity |].
  rewrite filter_cons_False by (apply Hn, elem_of_cons; left; reflexivity).
  apply IH. intros y Hy. apply Hn, elem_of_cons. right. exact Hy.
Qed.

End SpoolFacts2.

(** On any spool reached from an empty file, [peek(n)] returns the
    [min(n, count)] rows with the smallest rowids, oldest first: a prefix
    of the table in strictly increasing rowid order, every returned rowid
    smaller than every rowid left behind. *)
Theorem spool_peek_oldest_first :
  forall (ops : list Spool.op) (n : Z) (l : list (Z * string)),
    let s := fst (Spool.run Spool.fresh ops) in
    Spool.peek s n = Ret l ->
    l `prefix_of` Spool.rows (Spool.file s) /\
    length l = Nat.min (Z.to_nat n) (length (Spool.rows (Spool.file s))) /\
    StronglySorted Z.lt (map fst l) /\
    (forall r r', r ∈ l -> r' ∈ drop (length l) (Spool.rows (Spool.file s)) -> fst r < fst r').
Proof.
  intros ops n l s Hp.
  destruct (SpoolFacts2.reachable_good ops) as [_ Hs]. fold s in Hs.
  assert (Hl : l = take (Z.to_nat n) (Spool.rows (Spool.file s))).
  { unfold Spool.peek in Hp. destruct (Spool.opened s); [| discriminate]. simpl in Hp.
    destruct (Z.ltb_spec n 1); injection Hp as <-; [| reflexivity].
    replace (Z.to_nat n) with 0%nat by lia. reflexivity. }
  subst l. split; [apply prefix_take | split; [rewrite length_take; lia | split]].
  - rewrite <- (take_drop (Z.to_nat n) (Spool.rows (Spool.file s))) in Hs.
    apply StronglySorted_app_1_l in Hs.
    clear -Hs. induction Hs as [| x l Hs IH Hx]; simpl; constructor; [exact IH |].
    clear -Hx. induction Hx as [| z l' Hz _ IH']; simpl; constructor; [exact Hz | exact IH'].
  - intros r r' Hr Hr'.
    rewrite length_take in Hr'.
    assert (Hd : drop (Nat.min (Z.to_nat n) (length (Spool.rows (Spool.file s))))
                   (Spool.rows (Spool.file s)) = drop (Z.to_nat n) (Spool.rows (Spool.file s))).
    { destruct (Nat.le_ge_cases (Z.to_nat n) (length (Spool.rows (Spool.file s)))).
      - rewrite Nat.min_l by lia. reflexivity.
      - rewrite Nat.min_r by lia. rewrite !drop_ge by lia. reflexivity. }
    rewrite Hd in Hr'.
    rewrite <- (take_drop (Z.to_nat n) (Spool.rows (Spool.file s))) in Hs.
    exact (StronglySorted_app_1_elem_of _ _ _ _ _ Hs Hr Hr').
Qed.

(** On an opened spool, [ack(rowids)] deletes exactly the rows whose rowid
    is listed, keeps the others in order, leaves the sequence alone, and a
    second identical [ack] changes nothing. *)
Theorem spool_ack_filters_idempotent :
  forall (s : Spool.Spool) (ids : list Z),
    Spool.opened s = true ->
    exists s', Spool.ack s ids = Ret s' /\
      Spool.rows (Spool.file s') = filter (fun r => fst r ∉ ids) (Spool.rows (Spool.file s)) /\
      Spool.sqlite_seq (Spool.file s') = Spool.sqlite_seq (Spool.file s) /\
      Spool.opened s' = true /\
      Spool.ack s' ids = Ret s'.
Proof.
  intros s ids Ho. eexists. rewrite (SpoolFacts2.ack_opened s ids Ho).
  split; [reflexivity |]. split; [reflexivity | split; [reflexivity | split; [reflexivity |]]].
  rewrite SpoolFacts2.ack_opened by reflexivity. simpl.
  rewrite list_filter_filter_l by tauto. reflexivity.
Qed.

(** A closed spool ([_db is None]) refuses every operation with an
    AssertionError, including an [ack] of no rowids. *)
Theorem spool_closed_refuses_all :
  forall (s : Spool.Spool),
    Spool.opened s = false ->
    (forall p, Spool.enqueue s p = Raise AssertionError) /\
    (forall n, Spool.peek s n = Raise AssertionError) /\
    (forall ids, Spool.ack s ids = Raise AssertionError) /\
    Spool.count s = Raise AssertionError.
Proof.
  intros s Ho. unfold Spool.enqueue, Spool.peek, Spool.ack, Spool.count.
  rewrite Ho. simpl. repeat split.
Qed.

(** FIFO round trip: opening an empty file and enqueueing [ps] assigns the
    rowids [1 .. |ps|]; [peek(|ps|)] then returns every payload, paired
    with its rowid, in enqueue order; [count] is [|ps|]; acking those rowids
    empties the table while the next enqueue gets rowid [|ps| + 1]. *)
Theorem spool_fifo_roundtrip :
  forall (ps : list string) (p : string),
    Z.of_nat (length ps) < Spool.MAX_ROWID ->
    let '(s, ids) := Spool.run Spool.fresh (Spool.OpOpen :: map Spool.OpEnqueue ps) in
    ids = seqZ 1 (Z.of_nat (length ps)) /\
    Spool.peek s (Z.of_nat (length ps)) = Ret (zip ids ps) /\
    Spool.count s = Ret (Z.of_nat (length ps)) /\
    exists s', Spool.ack s ids = Ret s' /\ Spool.count s' = Ret 0 /\
      Spool.enqueue s' p = Ret (Spool.mkSpool (Spool.mkSpoolFile [(Z.of_nat (length ps) + 1, p)]
                                                 (Z.of_nat (length ps) + 1)) true,
                                Z.of_nat (length ps) + 1).
Proof.
  intros ps p Hmax. simpl.
  rewrite (SpoolFacts2.run_enqueues ps (Spool.open_ Spool.fresh) SpoolFacts2.fresh_good eq_refl)
    by (simpl; lia).
  simpl. change (0 + 1) with 1. rewrite ?Z.add_0_l. set (len := Z.of_nat (length ps)).
  assert (Hz : length (zip (seqZ 1 len) ps) = length ps).
  { rewrite length_zip, length_seqZ. subst len. lia. }
  split; [reflexivity | split; [| split]].
  - unfold Spool.peek. simpl.
    destruct (Z.ltb_spec len 1).
    + destruct ps; [reflexivity | subst len; simpl in *; lia].
    + rewrite take_ge by (rewrite Hz; subst len; lia). reflexivity.
  - unfold Spool.count. simpl. rewrite Hz. reflexivity.
  - rewrite SpoolFacts2.ack_opened by reflexivity. simpl.
    assert (Hnil : filter (fun r => fst r ∉ seqZ 1 len) (zip (seqZ 1 len) ps) = []).
    { apply SpoolFacts2.filter_none. intros [i q] Hi. apply elem_of_zip_l in Hi.
      simpl. intros Hn. exact (Hn Hi). }
    rewrite Hnil. eexists. split; [reflexivity | split; [reflexivity |]].
    unfold Spool.enqueue, Spool.autoincrement_next, Spool.max_rowid. simpl.
    rewrite Z.max_l by (subst len; lia).
    destruct (Z.ltb_spec len Spool.MAX_ROWID); [reflexivity | lia].
Qed.


Module UploaderFacts.
Import Uploader.

Lemma increase_backoff_bounds (u : Uploader) :
  (1 <= max_backoff_s u)%Q -> (1 <= current_backoff u <= max_backoff_s u)%Q ->
  (1 <= current_backoff (_increase_backoff u) <= max_backoff_s (_increase_backoff u))%Q.
Proof.
  intros Hm [H1 H2]. simpl. split.
  - apply Q.min_glb; [| exact Hm].
    apply Qle_trans with (current_backoff u); [exact H1 |].
    rewrite <- (Qmult_1_r (current_backoff u)) at 1.
    apply Qmult_le_l; [| discriminate].
    apply Qlt_le_trans with 1%Q; [reflexivity | exact H1].
  - apply Q.le_min_r.
Qed.

Lemma filter_all (P : Z * string -> Prop) `{!forall x, Decision (P x)} (l : list (Z * string)) :
  (forall x, x ∈ l -> P x) -> filter P l = l.
Proof.
  induction l as [| x l IH]; intros Hn; [reflexivity |].
  rewrite filter_cons_True by (apply Hn, elem_of_cons; left; reflexivity).
  rewrite IH; [reflexivity |]. intros y Hy. apply Hn, elem_of_cons. right. exact Hy.
Qed.

(** Rows of a sorted table: deleting the rowids of the first [n] rows
    leaves the rest. *)
Lemma filter_not_taken (n : nat) (l : list (Z * string)) :
  StronglySorted SpoolFacts2.rowid_lt l ->
  filter (fun r => fst r ∉ map fst (take n l)) l = drop n l.
Proof.
  intros Hs. rewrite <- (take_drop n l) at 1. rewrite filter_app.
  rewrite SpoolFacts2.filter_none.
  2:{ intros x Hx Hn. apply Hn. apply list_elem_of_fmap. exists x. split; [reflexivity | exact Hx]. }
  simpl. apply filter_all. intros y Hy Hn.
  apply list_elem_of_fmap in Hn as (x & Hxy & Hx).
  rewrite <- (take_drop n l) in Hs.
  pose proof (StronglySorted_app_1_elem_of _ _ _ _ _ Hs Hx Hy) as Hlt.
  unfold SpoolFacts2.rowid_lt in Hlt. lia.
Qed.

End UploaderFacts.

(** Whatever the spool, the network and the payloads do, one
    [upload_batch] keeps the backoff within [1 .. max_backoff_s] when it
    starts there, and never changes the URL, the token, the batch size or
    the cap. *)
Theorem upload_backoff_stays_in_bounds :
  forall {json : Type} (json_loads : string -> option json) (u : Uploader.Uploader)
         (spool : Spool.Spool) (post : string -> string -> list json -> Uploader.post_result),
    (1 <= Uploader.max_backoff_s u)%Q ->
    (1 <= Uploader.current_backoff u <= Uploader.max_backoff_s u)%Q ->
    let '(_, _, _, u') := Uploader.upload_batch json_loads u spool post in
    (1 <= Uploader.current_backoff u' <= Uploader.max_backoff_s u')%Q /\
    Uploader.max_backoff_s u' = Uploader.max_backoff_s u /\
    Uploader.vps_base_url u' = Uploader.vps_base_url u /\
    Uploader.vps_device_token u' = Uploader.vps_device_token u /\
    Uploader.batch_size u' = Uploader.batch_size u.
Proof.
  intros json json_loads u spool post Hm Hc.
  pose proof (UploaderFacts.increase_backoff_bounds u Hm Hc) as Hi.
  assert (Hr : (1 <= Uploader.current_backoff (Uploader._reset_backoff u)
                  <= Uploader.max_backoff_s (Uploader._reset_backoff u))%Q).
  { simpl. split; [apply Qle_refl | exact Hm]. }
  unfold Uploader.upload_batch.
  repeat match goal with
  | |- context [match ?x with _ => _ end] =>
      lazymatch x with context [match _ with _ => _ end] => fail | _ => destruct x end
  | |- context [if ?x then _ else _] => destruct x
  end;
  cbv beta iota; try (split; [first [exact Hc | exact Hi | exact Hr] | repeat split]).
Qed.

(** A successful upload from a spool reached from an empty file: the
    uploader peeks [batch_size] rows, POSTs exactly the decoded payloads of
    the oldest [batch_size] rows to [{base}/v1/ingest] with
    [Bearer {token}], acks exactly their rowids, and afterwards the table
    holds the remaining rows in order and the backoff is back to 1s. *)
Theorem upload_success_sends_oldest_batch_and_drops_it :
  forall {json : Type} (json_loads : string -> option json) (u : Uploader.Uploader)
         (ops : list Spool.op) (post : string -> string -> list json -> Uploader.post_result)
         (samples : list json),
    let spool := fst (Spool.run Spool.fresh ops) in
    let batch := take (Z.to_nat (Uploader.batch_size u)) (Spool.rows (Spool.file spool)) in
    let url := (Uploader.vps_base_url u ++ "/v1/ingest")%string in
    let auth := ("Bearer " ++ Uploader.vps_device_token u)%string in
    Spool.opened spool = true ->
    1 <= Uploader.batch_size u ->
    Spool.rows (Spool.file spool) <> [] ->
    Uploader.loads_all json_loads (map snd batch) = Some samples ->
    post url auth samples = Uploader.HttpResponse 200 ->
    exists spool',
      Uploader.upload_batch json_loads u spool post =
        ([Uploader.CallPeek (Uploader.batch_size u); Uploader.CallPost url auth samples;
          Uploader.CallAck (map fst batch)],
         Ret true, spool', Uploader._reset_backoff u) /\
      Spool.rows (Spool.file spool') =
        drop (Z.to_nat (Uploader.batch_size u)) (Spool.rows (Spool.file spool)) /\
      Spool.sqlite_seq (Spool.file spool') = Spool.sqlite_seq (Spool.file spool) /\
      Spool.opened spool' = true /\
      length samples = length batch.
Proof.
  intros json json_loads u ops post samples spool batch url auth Ho Hb Hne Hl Hp.
  destruct (SpoolFacts2.reachable_good ops) as [_ Hs]. fold spool in Hs.
  assert (Hpk : Spool.peek spool (Uploader.batch_size u) = Ret batch).
  { unfold Spool.peek. rewrite Ho. simpl.
    destruct (Z.ltb_spec (Uploader.batch_size u) 1); [lia | reflexivity]. }
  assert (Hbne : batch <> []).
  { subst batch. destruct (Spool.rows (Spool.file spool)); [congruence |].
    replace (Z.to_nat (Uploader.batch_size u)) with (S (Z.to_nat (Uploader.batch_size u - 1))) by lia.
    discriminate. }
  eexists. unfold Uploader.upload_batch. rewrite Hpk.
  destruct batch as [| r rs] eqn:Heb; [congruence |]. rewrite <- Heb in *.
  rewrite Hl. fold url auth. rewrite Hp. simpl.
  rewrite SpoolFacts2.ack_opened by exact Ho.
  split; [reflexivity |]. simpl.
  split; [subst batch; apply UploaderFacts.filter_not_taken, Hs |].
  split; [reflexivity | split; [reflexivity |]].
  clear -Hl. revert samples Hl. induction batch as [| x b IH]; intros samples Hl.
  - injection Hl as <-. reflexivity.
  - simpl in Hl. destruct (json_loads (snd x)); [| discriminate].
    destruct (Uploader.loads_all json_loads (map snd b)) as [js |] eqn:Hjs; [| discriminate].
    injection Hl as <-. simpl. f_equal. apply IH. reflexivity.
Qed.

(** On an opened spool, [upload_batch] makes no POST (and no ack) when
    there is nothing to send, because the spool is empty or [batch_size]
    is below 1 (it returns False), or when a payload of the batch is not
    valid JSON (the ValueError of [json.loads] propagates); in both cases
    spool and backoff are untouched. *)
Theorem upload_no_post_cases :
  forall {json : Type} (json_loads : string -> option json) (u : Uploader.Uploader)
         (spool : Spool.Spool) (post : string -> string -> list json -> Uploader.post_result),
    Spool.opened spool = true ->
    let batch := take (Z.to_nat (Uploader.batch_size u)) (Spool.rows (Spool.file spool)) in
    ((Uploader.batch_size u < 1 \/ Spool.rows (Spool.file spool) = []) ->
     Uploader.upload_batch json_loads u spool post =
       ([Uploader.CallPeek (Uploader.batch_size u)], Ret false, spool, u)) /\
    (Uploader.loads_all json_loads (map snd batch) = None ->
     Uploader.upload_batch json_loads u spool post =
       ([Uploader.CallPeek (Uploader.batch_size u)], Raise ValueError, spool, u)).
Proof.
  intros json json_loads u spool post Ho batch.
  unfold Uploader.upload_batch, Spool.peek. rewrite Ho. simpl.
  split.
  - intros [Hb | Hr].
    + destruct (Z.ltb_spec (Uploader.batch_size u) 1); [reflexivity | lia].
    + rewrite Hr, take_nil. destruct (_ <? 1); reflexivity.
  - intros Hl. destruct (Z.ltb_spec (Uploader.batch_size u) 1).
    + subst batch. replace (Z.to_nat (Uploader.batch_size u)) with 0%nat in Hl by lia. discriminate.
    + fold batch. destruct batch; [discriminate |]. rewrite Hl. reflexivity.
Qed.


Module IngestFacts2.
Import Ingest.

(** The row a key ends up with: an existing row is kept, a new key gets
    the first row of the batch carrying it. *)
Lemma insert_lookup (rows : list SampleIn) :
  forall (st : Store),
    forall k, (fst (insert_on_conflict_do_nothing st rows)) !! k =
      match st !! k with
      | Some v => Some v
      | None => head (filter (fun r => sample_key r = k) rows)
      end.
Proof.
  induction rows as [| r rest IH]; intros st k; simpl.
  - destruct (st !! k); reflexivity.
  - destruct (st !! sample_key r) as [x |] eqn:Hk.
    + rewrite IH. destruct (st !! k) as [v |] eqn:Hv; [reflexivity |].
      rewrite filter_cons_False; [reflexivity |]. intros <-. congruence.
    + destruct (insert_on_conflict_do_nothing (<[sample_key r := r]> st) rest) as [st' n] eqn:Hi.
      simpl. pose proof (IH (<[sample_key r := r]> st) k) as Hl. rewrite Hi in Hl. simpl in Hl.
      rewrite Hl. destruct (decide (sample_key r = k)) as [<- | Hne].
      * rewrite lookup_insert_eq, Hk, filter_cons_True by reflexivity. reflexivity.
      * rewrite lookup_insert_ne by exact Hne.
        destruct (st !! k); [reflexivity |]. rewrite filter_cons_False by exact Hne. reflexivity.
Qed.

Lemma insert_size (rows : list SampleIn) (st : Store) :
  let '(st', n) := insert_on_conflict_do_nothing st rows in
  Z.of_nat (size st') = Z.of_nat (size st) + n.
Proof.
  pose proof (IngestFacts.insert_spec rows st) as Hs.
  destruct (insert_on_conflict_do_nothing st rows) as [st' n].
  destruct Hs as [Hdom Hn]. rewrite Hn, <- !size_dom, Hdom.
  replace (dom st ∪ IngestFacts.batch_keys rows)
    with (dom st ∪ (IngestFacts.batch_keys rows ∖ dom st)).
  - rewrite size_union by set_solver. lia.
  - apply set_eq. intros x. set_unfold. destruct (decide (x ∈ dom st)); tauto.
Qed.




End IngestFacts2.

(** [INSERT ... ON CONFLICT DO NOTHING] never overwrites a stored row: an
    existing key keeps its row, a new key receives the first row of the
    batch that carries it, and [rowcount] is exactly the growth of the
    table. *)
Theorem insert_on_conflict_keeps_first_row :
  forall (st : Ingest.Store) (rows : list Ingest.SampleIn),
    let '(st', n) := Ingest.insert_on_conflict_do_nothing st rows in
    (forall k, st' !! k =
       match st !! k with
       | Some v => Some v
       | None => head (filter (fun r => Ingest.sample_key r = k) rows)
       end) /\
    Z.of_nat (size st') = Z.of_nat (size st) + n.
Proof.
  intros st rows.
  pose proof (IngestFacts2.insert_lookup rows st) as Hl.
  pose proof (IngestFacts2.insert_size rows st) as Hs.
  destruct (Ingest.insert_on_conflict_do_nothing st rows) as [st' n].
  split; [exact Hl | exact Hs].
Qed.



Module BearerFacts.
Import Bearer.

Fixpoint str_forall (p : ascii -> bool) (s : string) : bool :=
  match s with
  | EmptyString => true
  | String c r => p c && str_forall p r
  end.

Lemma append_cons (c : ascii) (a b : string) : (String c a ++ b)%string = String c (a ++ b).
Proof. reflexivity. Qed.

Lemma append_nil_l (b : string) : (EmptyString ++ b)%string = b.
Proof. reflexivity. Qed.

Lemma str_forall_app (p : ascii -> bool) (a b : string) :
  str_forall p (a ++ b) = str_forall p a && str_forall p b.
Proof. induction a as [| c a IH]; [reflexivity |]. rewrite append_cons. simpl. rewrite IH. apply andb_assoc. Qed.

Lemma append_nil_r (a : string) : (a ++ EmptyString)%string = a.
Proof. induction a as [| c a IH]; [reflexivity |]. rewrite append_cons, IH. reflexivity. Qed.

Lemma append_assoc (a b d : string) : (a ++ (b ++ d))%string = ((a ++ b) ++ d)%string.
Proof. induction a as [| c a IH]; [reflexivity |]. rewrite !append_cons, IH. reflexivity. Qed.

Lemma rev_str_app (a b : string) : rev_str (a ++ b) = (rev_str b ++ rev_str a)%string.
Proof.
  induction a as [| c a IH].
  - rewrite append_nil_l. simpl. rewrite append_nil_r. reflexivity.
  - rewrite append_cons. simpl. rewrite IH. rewrite <- append_assoc. reflexivity.
Qed.

Lemma rev_str_involutive (a : string) : rev_str (rev_str a) = a.
Proof.
  induction a as [| c a IH]; simpl; [reflexivity |].
  rewrite rev_str_app, IH. reflexivity.
Qed.

Lemma str_forall_rev (p : ascii -> bool) (a : string) :
  str_forall p (rev_str a) = str_forall p a.
Proof.
  induction a as [| c a IH]; simpl; [reflexivity |].
  rewrite str_forall_app, IH. simpl. rewrite andb_true_r. apply andb_comm.
Qed.

Definition not_space (c : ascii) : bool := negb (is_space c).

Lemma lstrip_clean (a : string) : str_forall not_space a = true -> lstrip a = a.
Proof.
  destruct a as [| c a]; simpl; [reflexivity |].
  unfold not_space. destruct (is_space c); [discriminate | reflexivity].
Qed.

(** [strip] leaves a string without whitespace alone. *)
Lemma strip_clean (a : string) : str_forall not_space a = true -> strip a = a.
Proof.
  intros Ha. unfold strip. rewrite (lstrip_clean a Ha).
  rewrite lstrip_clean by (rewrite str_forall_rev; exact Ha).
  apply rev_str_involutive.
Qed.

Definition not_char (x : ascii) (c : ascii) : bool := negb (Ascii.eqb c x).

Lemma split_on_clean (sep : ascii) (a : string) :
  str_forall (not_char sep) a = true -> split_on sep a = [a].
Proof.
  induction a as [| c a IH]; simpl; [reflexivity |].
  unfold not_char at 1. destruct (Ascii.eqb c sep); simpl; [discriminate |].
  intros Ha. rewrite (IH Ha). reflexivity.
Qed.

Lemma split_on_app (sep : ascii) (a b : string) :
  str_forall (not_char sep) a = true ->
  split_on sep (a ++ String sep b) = a :: split_on sep b.
Proof.
  induction a as [| c a IH].
  - rewrite append_nil_l. simpl. rewrite Ascii.eqb_refl. reflexivity.
  - rewrite append_cons. simpl. unfold not_char at 1. destruct (Ascii.eqb c sep); simpl; [discriminate |].
    intros Ha. rewrite (IH Ha). reflexivity.
Qed.

(** [sep.join(xs).split(sep)] gives [xs] back when no piece holds [sep]. *)
Lemma split_on_concat (sep : ascii) (xs : list string) :
  xs <> [] -> Forall (fun x => str_forall (not_char sep) x = true) xs ->
  split_on sep (String.concat (String sep EmptyString) xs) = xs.
Proof.
  induction xs as [| x xs IH]; intros Hne Hall; [congruence |].
  apply Forall_cons in Hall as [Hx Hall].
  destruct xs as [| y ys].
  - simpl. apply split_on_clean, Hx.
  - change (String.concat (String sep EmptyString) (x :: y :: ys))
      with (x ++ String sep (String.concat (String sep EmptyString) (y :: ys)))%string.
    rewrite split_on_app by exact Hx. rewrite IH; [reflexivity | discriminate | exact Hall].
Qed.

Lemma split_first_app (sep : ascii) (a b : string) :
  str_forall (not_char sep) a = true ->
  split_first sep (a ++ String sep b) = Some (a, b).
Proof.
  induction a as [| c a IH].
  - rewrite append_nil_l. simpl. rewrite Ascii.eqb_refl. reflexivity.
  - rewrite append_cons. simpl. unfold not_char at 1. destruct (Ascii.eqb c sep); simpl; [discriminate |].
    intros Ha. rewrite (IH Ha). reflexivity.
Qed.

Lemma verify_go_eq (t : string) (m : dict) :
  t <> EmptyString ->
  verify_bearer_token t m =
    (fix go (m : dict) : option string :=
       match m with
       | [] => None
       | (k, d) :: m' => if String.eqb t k then Some d else go m'
       end) m.
Proof.
  intros Ht. unfold verify_bearer_token.
  destruct (String.eqb_spec t EmptyString); [congruence | reflexivity].
Qed.

(** Looking a token up after [d[k] = v]. *)
Lemma verify_dict_set (t k v : string) (m : dict) :
  t <> EmptyString ->
  verify_bearer_token t (dict_set k v m) =
    if String.eqb t k then Some v else verify_bearer_token t m.
Proof.
  intros Ht. rewrite !verify_go_eq by exact Ht.
  induction m as [| [k' v'] m IH]; simpl.
  - destruct (String.eqb t k); reflexivity.
  - destruct (String.eqb_spec k k') as [-> | Hne]; simpl.
    + destruct (String.eqb t k'); reflexivity.
    + rewrite IH. destruct (String.eqb_spec t k') as [-> | Hne'].
      * destruct (String.eqb_spec k' k); [congruence | reflexivity].
      * reflexivity.
Qed.

(** A well-formed [DEVICE_TOKENS] entry: both parts non-empty and free of
    whitespace and commas, no colon in the token. *)
Definition clean_entry (e : string * string) : Prop :=
  fst e <> EmptyString /\ snd e <> EmptyString /\
  str_forall not_space (fst e) = true /\ str_forall not_space (snd e) = true /\
  str_forall (not_char ",") (fst e) = true /\ str_forall (not_char ",") (snd e) = true /\
  str_forall (not_char ":") (fst e) = true.

Definition render_entry (e : string * string) : string := (fst e ++ ":" ++ snd e)%string.

Lemma parse_entry_clean (m : dict) (e : string * string) :
  clean_entry e -> parse_entry m (render_entry e) = dict_set (fst e) (snd e) m.
Proof.
  intros (Ht & Hd & Hst & Hsd & _ & _ & Hct).
  unfold parse_entry, render_entry.
  change (":" ++ snd e)%string with (String ":" (snd e)).
  rewrite strip_clean.
  2:{ rewrite str_forall_app. simpl. rewrite Hst, Hsd. reflexivity. }
  simpl. rewrite split_first_app by exact Hct.
  rewrite !strip_clean by assumption.
  destruct (String.eqb_spec (fst e) EmptyString); [congruence |].
  destruct (String.eqb_spec (snd e) EmptyString); [congruence |]. reflexivity.
Qed.

Lemma verify_foldl (t : string) (es : list (string * string)) (m : dict) :
  t <> EmptyString ->
  verify_bearer_token t (foldl (fun m e => dict_set (fst e) (snd e) m) m es) =
    match last (map snd (filter (fun e => fst e = t) es)) with
    | Some d => Some d
    | None => verify_bearer_token t m
    end.
Proof.
  intros Ht. revert m. induction es as [| e es IH] using rev_ind; intros m; simpl; [reflexivity |].
  rewrite foldl_app. simpl. rewrite verify_dict_set by exact Ht.
  rewrite filter_app, map_app, filter_cons. simpl.
  destruct (String.eqb_spec t (fst e)) as [-> | Hne].
  - rewrite decide_True by reflexivity. simpl. rewrite last_snoc. reflexivity.
  - rewrite decide_False by congruence. simpl. rewrite app_nil_r. apply IH.
Qed.

Lemma str_forall_concat (p : ascii -> bool) (sep : string) (xs : list string) :
  str_forall p sep = true -> Forall (fun x => str_forall p x = true) xs ->
  str_forall p (String.concat sep xs) = true.
Proof.
  intros Hs. induction xs as [| x xs IH]; intros Hall; [reflexivity |].
  apply Forall_cons in Hall as [Hx Hall].
  destruct xs as [| y ys]; [exact Hx |].
  change (String.concat sep (x :: y :: ys)) with (x ++ sep ++ String.concat sep (y :: ys))%string.
  rewrite !str_forall_app, Hx, Hs, IH by exact Hall. reflexivity.
Qed.

Lemma render_entry_forall (p : ascii -> bool) (e : string * string) :
  str_forall p (fst e) = true -> p ":"%char = true -> str_forall p (snd e) = true ->
  str_forall p (render_entry e) = true.
Proof.
  intros H1 H2 H3. unfold render_entry.
  change (":" ++ snd e)%string with (String ":" (snd e)).
  rewrite str_forall_app. simpl. rewrite H1, H2, H3. reflexivity.
Qed.

Lemma foldl_parse_entries (es : list (string * string)) (m : dict) :
  Forall clean_entry es ->
  foldl parse_entry m (map render_entry es) = foldl (fun m e => dict_set (fst e) (snd e) m) m es.
Proof.
  revert m. induction es as [| e es IH]; intros m Hall; [reflexivity |].
  apply Forall_cons in Hall as [He Hall]. simpl.
  rewrite parse_entry_clean by exact He. apply IH, Hall.
Qed.

End BearerFacts.

(** Round trip of the [DEVICE_TOKENS] format: for well-formed
    [token:device] entries joined with commas, [parse_device_tokens]
    followed by [verify_bearer_token] authenticates exactly the listed
    tokens, a token listed several times mapping to its last device, and
    rejects every other token (the empty one included). *)
Theorem device_tokens_roundtrip :
  forall (es : list (string * string)) (t : string),
    Forall BearerFacts.clean_entry es ->
    Bearer.verify_bearer_token t
      (Bearer.parse_device_tokens (String.concat "," (map BearerFacts.render_entry es))) =
    last (map snd (filter (fun e => fst e = t) es)).
Proof.
  intros es t Hall.
  destruct (String.eqb_spec t EmptyString) as [-> | Ht].
  { unfold Bearer.verify_bearer_token. simpl.
    destruct (last _) as [d |] eqn:Hl; [| reflexivity]. exfalso.
    apply last_Some_elem_of in Hl.
    apply list_elem_of_fmap in Hl as (e & _ & He).
    apply list_elem_of_filter in He as [He Hin].
    rewrite Forall_forall in Hall. destruct (Hall e Hin) as [Hne _]. congruence. }
  destruct es as [| [t0 d0] es'] eqn:Hes.
  { unfold Bearer.verify_bearer_token. destruct (String.eqb t EmptyString); reflexivity. }
  rewrite <- Hes. rewrite <- Hes in Hall.
  assert (Hclean : BearerFacts.str_forall BearerFacts.not_space
                     (String.concat "," (map BearerFacts.render_entry es)) = true).
  { apply BearerFacts.str_forall_concat; [reflexivity |].
    apply Forall_fmap. eapply Forall_impl; [exact Hall |].
    intros e (_ & _ & H1 & H2 & _). apply BearerFacts.render_entry_forall; auto. }
  assert (Hnz : String.concat "," (map BearerFacts.render_entry es) <> EmptyString).
  { rewrite Hes. rewrite Hes in Hall. apply Forall_cons in Hall as [(Ht0 & _) _].
    simpl in Ht0. destruct t0 as [| c r]; [congruence |].
    destruct es' as [| e1 es'']; simpl; discriminate. }
  unfold Bearer.parse_device_tokens.
  rewrite BearerFacts.strip_clean by exact Hclean.
  destruct (String.eqb_spec (String.concat "," (map BearerFacts.render_entry es)) EmptyString);
    [congruence |].
  simpl orb. cbv iota.
  rewrite BearerFacts.split_on_concat.
  - rewrite BearerFacts.foldl_parse_entries by exact Hall.
    rewrite BearerFacts.verify_foldl by exact Ht.
    destruct (last _); [reflexivity |].
    rewrite BearerFacts.verify_go_eq by exact Ht. reflexivity.
  - rewrite Hes. discriminate.
  - apply Forall_fmap. eapply Forall_impl; [exact Hall |].
    intros e (_ & _ & _ & _ & H1 & H2 & _). apply BearerFacts.render_entry_forall; auto.
Qed.

Module BearerFacts2.
Import Bearer BearerFacts.

Definition wf (m : dict) : Prop :=
  NoDup (map fst m) /\ Forall (fun e => fst e <> EmptyString /\ snd e <> EmptyString) m.

Lemma dict_set_elem (k v : string) (m : dict) (e : string * string) :
  e ∈ dict_set k v m -> e = (k, v) \/ e ∈ m.
Proof.
  induction m as [| [k' v'] m IH]; simpl.
  - intros He. apply list_elem_of_singleton in He. left. exact He.
  - destruct (String.eqb k k'); intros He; apply elem_of_cons in He as [-> | He].
    + left. reflexivity.
    + right. apply elem_of_cons. right. exact He.
    + right. apply elem_of_cons. left. reflexivity.
    + destruct (IH He) as [-> | He']; [left; reflexivity | right; apply elem_of_cons; right; exact He'].
Qed.

Lemma dict_set_wf (k v : string) (m : dict) :
  k <> EmptyString -> v <> EmptyString -> wf m -> wf (dict_set k v m).
Proof.
  intros Hk Hv [Hnd Hall]. split.
  - induction m as [| [k' v'] m IH]; simpl.
    + constructor; [apply not_elem_of_nil | constructor].
    + apply NoDup_cons in Hnd as [Hn Hnd]. apply Forall_cons in Hall as [_ Hall].
      destruct (String.eqb_spec k k') as [-> | Hne]; simpl.
      * constructor; assumption.
      * constructor; [| apply IH; assumption].
        intros Hin. apply list_elem_of_fmap in Hin as ([x y] & Hx & Hin). simpl in Hx. subst x.
        destruct (dict_set_elem k v m _ Hin) as [Heq | Hin'].
        -- injection Heq as Heq _. congruence.
        -- apply Hn. apply list_elem_of_fmap. exists (k', y). split; [reflexivity | exact Hin'].
  - rewrite Forall_forall in Hall |- *. intros e He.
    destruct (dict_set_elem k v m e He) as [-> | He']; [split; assumption | apply Hall, He'].
Qed.

Lemma parse_entry_wf (m : dict) (entry : string) : wf m -> wf (parse_entry m entry).
Proof.
  intros Hm. unfold parse_entry.
  destruct (split_first ":" (strip entry)) as [[t d] |]; [| exact Hm].
  destruct (String.eqb_spec (strip t) EmptyString); [exact Hm |].
  destruct (String.eqb_spec (strip d) EmptyString); [exact Hm |].
  apply dict_set_wf; assumption.
Qed.

Lemma parse_wf (raw : string) : wf (parse_device_tokens raw).
Proof.
  unfold parse_device_tokens.
  destruct (String.eqb raw EmptyString || String.eqb (strip raw) EmptyString).
  - split; constructor.
  - generalize (split_on "," raw). intros xs.
    assert (H0 : wf []) by (split; constructor).
    revert H0. generalize (@nil (string * string)). induction xs as [| x xs IH]; intros m Hm; simpl.
    + exact Hm.
    + apply IH, parse_entry_wf, Hm.
Qed.

Lemma verify_wf (m : dict) (t d : string) :
  wf m -> verify_bearer_token t m = Some d <-> (t, d) ∈ m.
Proof.
  intros [Hnd Hall]. destruct (String.eqb_spec t EmptyString) as [-> | Ht].
  - unfold verify_bearer_token. simpl. split; [discriminate |].
    intros Hin. rewrite Forall_forall in Hall. destruct (Hall _ Hin) as [Hne _]. simpl in Hne. congruence.
  - rewrite verify_go_eq by exact Ht. clear Hall.
    induction m as [| [k v] m IH]; simpl.
    + split; [discriminate | intros Hin; apply not_elem_of_nil in Hin; contradiction].
    + apply NoDup_cons in Hnd as [Hn Hnd]. rewrite elem_of_cons.
      destruct (String.eqb_spec t k) as [-> | Hne].
      * split.
        -- intros [= ->]. left. reflexivity.
        -- intros [[= ->] | Hin]; [reflexivity |]. exfalso. apply Hn.
           apply list_elem_of_fmap. exists (k, d). split; [reflexivity | exact Hin].
      * rewrite (IH Hnd). split; [intros Hin; right; exact Hin |].
        intros [[= -> ->] | Hin]; [congruence | exact Hin].
Qed.

End BearerFacts2.

(** Whatever the [DEVICE_TOKENS] text, the parsed map has pairwise
    distinct, non-empty tokens and non-empty device ids, and
    [verify_bearer_token] (the constant-time scan over all entries)
    returns a device exactly when the token is a key of the map with that
    device; in particular the empty token is never accepted. *)
Theorem parsed_tokens_wellformed :
  forall (raw : string),
    let m := Bearer.parse_device_tokens raw in
    NoDup (map fst m) /\
    Forall (fun e => fst e <> EmptyString /\ snd e <> EmptyString) m /\
    (forall t d, Bearer.verify_bearer_token t m = Some d <-> (t, d) ∈ m).
Proof.
  intros raw m. pose proof (BearerFacts2.parse_wf raw) as [Hnd Hall]. fold m in Hnd, Hall.
  split; [exact Hnd | split; [exact Hall |]].
  intros t d. apply BearerFacts2.verify_wf. split; assumption.
Qed.


Module RealtimeFacts.
Import Ingest.

Definition latest_step (d : string) (s : SampleIn) (acc : option SampleIn) : option SampleIn :=
  if String.eqb (Ingest.device_id s) d then
    match acc with
    | None => Some s
    | Some b => if ts b <? ts s then Some s else Some b
    end
  else acc.

Lemma latest_list_spec (d : string) (l : list SampleIn) :
  (foldr (latest_step d) None l = None <-> forall s, s ∈ l -> Ingest.device_id s <> d) /\
  (forall s, foldr (latest_step d) None l = Some s ->
     s ∈ l /\ Ingest.device_id s = d /\
     forall s', s' ∈ l -> Ingest.device_id s' = d -> ts s' <= ts s).
Proof.
  induction l as [| x l [IHn IHs]]; simpl.
  - split; [split; [intros _ s Hs; apply not_elem_of_nil in Hs; contradiction | reflexivity] | discriminate].
  - unfold latest_step at 1. fold (latest_step d).
    destruct (String.eqb_spec (Ingest.device_id x) d) as [Hx | Hx].
    + split.
      * split; [destruct (foldr (latest_step d) None l) as [b |]; [destruct (ts b <? ts x) |]; discriminate |].
        intros Hall. exfalso. apply (Hall x); [apply elem_of_cons; left; reflexivity | exact Hx].
      * intros s Hs. unfold latest_step at 1 in Hs. rewrite Hx, String.eqb_refl in Hs.
        destruct (foldr (latest_step d) None l) as [b |] eqn:Hf.
        -- destruct (IHs b eq_refl) as (Hb & Hbd & Hbmax).
           destruct (ts b <? ts x) eqn:Hlt; injection Hs as <-;
             [apply Z.ltb_lt in Hlt | apply Z.ltb_ge in Hlt].
           ++ split; [apply elem_of_cons; left; reflexivity | split; [exact Hx |]].
              intros s' Hs' Hd. apply elem_of_cons in Hs' as [-> | Hs']; [lia |].
              specialize (Hbmax s' Hs' Hd). lia.
           ++ split; [apply elem_of_cons; right; exact Hb | split; [exact Hbd |]].
              intros s' Hs' Hd. apply elem_of_cons in Hs' as [-> | Hs']; [lia |].
              apply Hbmax; assumption.
        -- injection Hs as <-. split; [apply elem_of_cons; left; reflexivity | split; [exact Hx |]].
           intros s' Hs' Hd. apply elem_of_cons in Hs' as [-> | Hs']; [lia |].
           exfalso. apply (proj1 IHn eq_refl s' Hs' Hd).
    + split.
      * rewrite IHn. split.
        -- intros Hall s Hs. apply elem_of_cons in Hs as [-> | Hs]; [exact Hx | apply Hall, Hs].
        -- intros Hall s Hs. apply Hall, elem_of_cons. right. exact Hs.
      * intros s Hs. unfold latest_step at 1 in Hs.
        apply String.eqb_neq in Hx as Hx'. rewrite Hx' in Hs.
        destruct (IHs s Hs) as (Hin & Hd & Hmax).
        split; [apply elem_of_cons; right; exact Hin | split; [exact Hd |]].
        intros s' Hs' Hd'. apply elem_of_cons in Hs' as [-> | Hs']; [congruence | apply Hmax; assumption].
Qed.

Lemma in_rows (st : Store) (s : SampleIn) :
  s ∈ map snd (map_to_list st) <-> exists k, st !! k = Some s.
Proof.
  rewrite list_elem_of_fmap. split.
  - intros ([k v] & -> & Hin). exists k. apply elem_of_map_to_list. exact Hin.
  - intros (k & Hk). exists (k, s). split; [reflexivity |]. apply elem_of_map_to_list. exact Hk.
Qed.

Lemma latest_sample_spec (st : Store) (d : string) :
  (Realtime.latest_sample st d = None <-> forall k s, st !! k = Some s -> Ingest.device_id s <> d) /\
  (forall s, Realtime.latest_sample st d = Some s ->
     (exists k, st !! k = Some s) /\ Ingest.device_id s = d /\
     forall k s', st !! k = Some s' -> Ingest.device_id s' = d -> ts s' <= ts s).
Proof.
  destruct (latest_list_spec d (map snd (map_to_list st))) as [Hn Hs].
  unfold Realtime.latest_sample. fold (latest_step d). split.
  - rewrite Hn. split.
    + intros Hall k s Hk. apply Hall, in_rows. exists k. exact Hk.
    + intros Hall s Hin. apply in_rows in Hin as (k & Hk). exact (Hall k s Hk).
  - intros s Hl. destruct (Hs s Hl) as (Hin & Hd & Hmax).
    split; [apply in_rows, Hin | split; [exact Hd |]].
    intros k s' Hk Hd'. apply Hmax; [apply in_rows; exists k; exact Hk | exact Hd'].
Qed.

End RealtimeFacts.


(** [GET /v1/realtime] in general: a device mismatch is a 403 that
    touches nothing; the only cache write is the returned database row
    under [realtime:{device}]; a database answer is a row of the device
    with the latest timestamp; a 404 means the device has no row at all. *)
Theorem realtime_behaviour :
  forall {json : Type} (json_loads : string -> option json) (dumps : Ingest.SampleIn -> string)
         (ttl : Z) (auth : option string) (device : string) (st : Ingest.Store)
         (redis : option Ingest.Cache),
    let '(resp, redis') := Realtime.realtime json_loads dumps ttl auth device st redis in
    (forall a, auth = Some a -> device <> a -> resp = Realtime.HttpError 403 /\ redis' = redis) /\
    (redis' = redis \/
     exists c s, redis = Some c /\ resp = Realtime.FromDb s /\
                 redis' = Some (<[("realtime:" ++ device)%string := dumps s]> c)) /\
    (forall s, resp = Realtime.FromDb s ->
       Ingest.device_id s = device /\ (exists k, st !! k = Some s) /\
       forall k s', st !! k = Some s' -> Ingest.device_id s' = device -> Ingest.ts s' <= Ingest.ts s) /\
    (resp = Realtime.HttpError 404 -> forall k s, st !! k = Some s -> Ingest.device_id s <> device).
Proof.
  intros json json_loads dumps ttl auth device st redis.
  destruct (RealtimeFacts.latest_sample_spec st device) as [Hnone Hsome].
  unfold Realtime.realtime. destruct auth as [a |];
    [| simpl; split; [discriminate | split; [left; reflexivity | split; [discriminate | discriminate]]]].
  destruct (String.eqb_spec device a) as [<- | Hne]; simpl.
  2:{ split; [intros a' [= <-] _; split; reflexivity |].
      split; [left; reflexivity | split; [discriminate | discriminate]]. }
  destruct (match redis with
             | Some c => match c !! ("realtime:" ++ device)%string with
                         | Some cached => json_loads cached
                         | None => None end
             | None => None end) as [body |].
  { split; [intros a' [= <-] Hne; congruence |].
    split; [left; reflexivity | split; discriminate]. }
  destruct (Realtime.latest_sample st device) as [s |] eqn:Hl.
  - split; [intros a' [= <-] Hne; congruence |]. split.
    + destruct redis as [c |]; [| left; reflexivity].
      destruct (0 <? ttl); [right; exists c, s; split; [reflexivity | split; reflexivity] | left; reflexivity].
    + split; [| discriminate].
      intros s' [= <-]. destruct (Hsome s eq_refl) as (Hk & Hd & Hmax).
      split; [exact Hd | split; [exact Hk | exact Hmax]].
  - split; [intros a' [= <-] Hne; congruence |].
    split; [left; reflexivity | split; [discriminate |]].
    intros _. apply Hnone. reflexivity.
Qed.

(* ------------------------------------------------------------------ *)
(** ** Concrete instances of the properties above *)

Definition demo_normalized : Normalizer.SungrowSample :=
  Normalizer.mkSungrowSample "inv-1" 1700000000
    (inject_Z 1500 * 1) (inject_Z 123 * (1#10)) (inject_Z (-500) * 1)
    (inject_Z 800 * (1#10)) (inject_Z 250 * (1#10)) (inject_Z 900 * 1)
    (inject_Z 600 * 1)%Q.

(** The demo raw map normalises to a sample within every range. *)
Lemma normalize_fields_in_range_witness :
  Normalizer.normalize demo_raw "inv-1" 1700000000 = Ret (Some demo_normalized) /\
  (0 <= Normalizer.pv_power_w demo_normalized <= 20000)%Q /\
  (-20000 <= Normalizer.export_power_w demo_normalized <= 20000)%Q.
Proof.
  assert (Hn : Normalizer.normalize demo_raw "inv-1" 1700000000 = Ret (Some demo_normalized))
    by (vm_compute; reflexivity).
  destruct (normalize_fields_in_range demo_raw "inv-1" 1700000000 demo_normalized Hn)
    as (Hpv & _ & _ & _ & _ & _ & Hexp).
  split; [exact Hn | split; [exact Hpv | exact Hexp]].
Defined.

(** A register outside the eight mapped ones does not change the result. *)
Lemma normalize_reads_only_mapped_registers_witness :
  Normalizer.normalize demo_raw "inv-1" 1700000000 =
    Normalizer.normalize (<["serial_number" := [7; 7; 7]]> demo_raw) "inv-1" 1700000000.
Proof.
  apply normalize_reads_only_mapped_registers.
  intros n Hn. rewrite lookup_insert_ne; [reflexivity |].
  intros <-.
  repeat (apply elem_of_cons in Hn as [Hn | Hn]; [discriminate |]).
  apply elem_of_nil in Hn. exact Hn.
Defined.

(** With the export register present: a malformed one drops the sample,
    a good one is the sample's export power. *)
Lemma export_present_no_grid_fallback_witness :
  Normalizer.normalize (<["export_power" := [5]]> demo_raw) "inv-1" 1700000000 = Ret None /\
  Normalizer.extract_named "export_power" demo_raw = Some (Normalizer.export_power_w demo_normalized).
Proof.
  split.
  - apply (proj1 (export_present_no_grid_fallback (<["export_power" := [5]]> demo_raw)
                    "inv-1" 1700000000 ltac:(exists [5]; vm_compute; reflexivity))).
    vm_compute. reflexivity.
  - apply (proj2 (export_present_no_grid_fallback demo_raw "inv-1" 1700000000
                    ltac:(exists [0; 600]; vm_compute; reflexivity))).
    vm_compute. reflexivity.
Defined.

Definition zero_words (g : Registers.RegisterGroup) : list Z :=
  repeat 0 (Z.to_nat (Registers.count g)).

Definition zero_read (g : Registers.RegisterGroup) : Poller.read_response :=
  Poller.RespOk (zero_words g).

(** An inverter that answers every group read in full. *)
Lemma full_poll_slices_every_register_witness :
  exists m, snd (Poller._do_poll Poller.ConnOk zero_read 20) = Ret (Some m) /\
    forall g r, g ∈ Registers.ALL_GROUPS -> r ∈ Registers.registers g ->
      m !! Registers.name r =
        Some (take (Z.to_nat (Registers.word_count r))
                (drop (Z.to_nat (Registers.address r - Registers.start_address g)) (zero_words g))) /\
      length (take (Z.to_nat (Registers.word_count r))
                (drop (Z.to_nat (Registers.address r - Registers.start_address g)) (zero_words g)))
        = Z.to_nat (Registers.word_count r).
Proof.
  apply (full_poll_slices_every_register zero_read 20 zero_words).
  intros g _. split; [reflexivity | apply repeat_length].
Defined.

Definition demo_ops : list Spool.op :=
  [Spool.OpOpen; Spool.OpEnqueue "a"; Spool.OpEnqueue "b"; Spool.OpEnqueue "c"].

(** Peeking two of three spooled rows gives the two oldest. *)
Lemma spool_peek_oldest_first_witness :
  [(1, "a"); (2, "b")] `prefix_of` Spool.rows (Spool.file (fst (Spool.run Spool.fresh demo_ops))) /\
  (forall r r', r ∈ [(1, "a"); (2, "b")] ->
     r' ∈ drop 2 (Spool.rows (Spool.file (fst (Spool.run Spool.fresh demo_ops)))) -> fst r < fst r').
Proof.
  destruct (spool_peek_oldest_first demo_ops 2 [(1, "a"); (2, "b")]
              ltac:(vm_compute; reflexivity)) as (Hp & _ & _ & Hlt).
  split; [exact Hp | exact Hlt].
Defined.

(** Acknowledging rowid 1 of the demo spool leaves row 2, and a second
    acknowledgement of the same rowids changes nothing. *)
Lemma spool_ack_filters_idempotent_witness :
  exists s', Spool.ack demo_spool [1] = Ret s' /\ Spool.ack s' [1] = Ret s' /\
    Spool.rows (Spool.file s') = [(2, "{}")].
Proof.
  destruct (spool_ack_filters_idempotent demo_spool [1] eq_refl)
    as (s' & Ha & Hr & _ & _ & Hi).
  exists s'. split; [exact Ha | split; [exact Hi | rewrite Hr; vm_compute; reflexivity]].
Defined.

(** A spool that was opened, written to and closed refuses every call. *)
Lemma spool_closed_refuses_all_witness :
  Spool.enqueue (fst (Spool.run Spool.fresh [Spool.OpOpen; Spool.OpEnqueue "a"; Spool.OpClose])) "b"
    = Raise AssertionError /\
  Spool.count (fst (Spool.run Spool.fresh [Spool.OpOpen; Spool.OpEnqueue "a"; Spool.OpClose]))
    = Raise AssertionError.
Proof.
  destruct (spool_closed_refuses_all
              (fst (Spool.run Spool.fresh [Spool.OpOpen; Spool.OpEnqueue "a"; Spool.OpClose]))
              ltac:(vm_compute; reflexivity)) as (He & _ & _ & Hc).
  split; [apply He | exact Hc].
Defined.

(** Two payloads in, both acknowledged, the next rowid is 3. *)
Lemma spool_fifo_roundtrip_witness :
  exists s', Spool.ack (fst (Spool.run Spool.fresh [Spool.OpOpen; Spool.OpEnqueue "a"; Spool.OpEnqueue "b"])) [1; 2]
               = Ret s' /\
    Spool.count s' = Ret 0 /\
    Spool.enqueue s' "c" = Ret (Spool.mkSpool (Spool.mkSpoolFile [(3, "c")] 3) true, 3).
Proof.
  destruct (spool_fifo_roundtrip ["a"; "b"] "c" ltac:(vm_compute; reflexivity))
    as (_ & _ & _ & s' & Ha & Hc & He).
  exists s'. split; [exact Ha | split; [exact Hc | exact He]].
Defined.

(** A failed upload from the initial backoff keeps the backoff in bounds. *)
Lemma upload_backoff_stays_in_bounds_witness :
  let '(_, _, _, u') := Uploader.upload_batch demo_loads demo_uploader demo_spool
                          (fun _ _ _ => Uploader.HttpResponse 500) in
  (1 <= Uploader.current_backoff u' <= Uploader.max_backoff_s u')%Q /\
  Uploader.max_backoff_s u' = Uploader.max_backoff_s demo_uploader /\
  Uploader.vps_base_url u' = Uploader.vps_base_url demo_uploader /\
  Uploader.vps_device_token u' = Uploader.vps_device_token demo_uploader /\
  Uploader.batch_size u' = Uploader.batch_size demo_uploader.
Proof.
  exact (upload_backoff_stays_in_bounds demo_loads demo_uploader demo_spool
           (fun _ _ _ => Uploader.HttpResponse 500)
           ltac:(vm_compute; discriminate) ltac:(split; vm_compute; discriminate)).
Defined.

Definition demo_uploader_2 : Uploader.Uploader :=
  Uploader.mkUploader "https://solar.example.com" "tok-123" 2
    Uploader._DEFAULT_MAX_BACKOFF_S Uploader._INITIAL_BACKOFF_S.

Definition demo_upload_ops : list Spool.op :=
  [Spool.OpOpen; Spool.OpEnqueue "{}"; Spool.OpEnqueue "{}"; Spool.OpEnqueue "{}"].

(** Three spooled rows, batch size 2: the two oldest go out and are
    dropped, the third stays. *)
Lemma upload_success_sends_oldest_batch_and_drops_it_witness :
  exists spool',
    Uploader.upload_batch demo_loads demo_uploader_2 (fst (Spool.run Spool.fresh demo_upload_ops))
        (fun _ _ _ => Uploader.HttpResponse 200) =
      ([Uploader.CallPeek 2;
        Uploader.CallPost "https://solar.example.com/v1/ingest" "Bearer tok-123" [tt; tt];
        Uploader.CallAck [1; 2]],
       Ret true, spool', Uploader._reset_backoff demo_uploader_2) /\
    Spool.rows (Spool.file spool') = [(3, "{}")].
Proof.
  destruct (upload_success_sends_oldest_batch_and_drops_it demo_loads demo_uploader_2
              demo_upload_ops (fun _ _ _ => Uploader.HttpResponse 200) [tt; tt]
              ltac:(vm_compute; reflexivity) ltac:(vm_compute; discriminate)
              ltac:(vm_compute; discriminate) ltac:(vm_compute; reflexivity) eq_refl)
    as (spool' & Hu & Hr & _).
  exists spool'. split; [exact Hu | rewrite Hr; vm_compute; reflexivity].
Defined.

(** An empty spool is not posted; an undecodable row is not posted. *)
Lemma upload_no_post_cases_witness :
  Uploader.upload_batch demo_loads demo_uploader (fst (Spool.run Spool.fresh [Spool.OpOpen]))
      (fun _ _ _ => Uploader.HttpResponse 200) =
    ([Uploader.CallPeek 30], Ret false, fst (Spool.run Spool.fresh [Spool.OpOpen]), demo_uploader) /\
  Uploader.upload_batch (fun _ => @None unit) demo_uploader demo_spool
      (fun _ _ _ => Uploader.HttpResponse 200) =
    ([Uploader.CallPeek 30], Raise ValueError, demo_spool, demo_uploader).
Proof.
  split.
  - apply (proj1 (upload_no_post_cases demo_loads demo_uploader
                    (fst (Spool.run Spool.fresh [Spool.OpOpen])) _ eq_refl)).
    right. reflexivity.
  - apply (proj2 (upload_no_post_cases (fun _ => @None unit) demo_uploader demo_spool _ eq_refl)).
    vm_compute. reflexivity.
Defined.

Definition demo_token_entries : list (string * string) :=
  [("tok1", "dev1"); ("tok2", "dev2"); ("tok1", "dev3")].

(** A repeated token maps to the last device listed for it. *)
Lemma device_tokens_roundtrip_witness :
  Bearer.verify_bearer_token "tok1"
    (Bearer.parse_device_tokens (String.concat "," (map BearerFacts.render_entry demo_token_entries)))
  = Some "dev3".
Proof.
  rewrite (device_tokens_roundtrip demo_token_entries "tok1").
  - vm_compute. reflexivity.
  - repeat constructor; vm_compute; first [reflexivity | discriminate].
Defined.




